(** * chromecastize: a shallow embedding of [chromecastize.py]

    The script walks a list of paths, and for every media file decides
    from the probed container / video codec / audio codec whether the file
    is already playable, marks it in a ledger file, or runs a transcode.

    The embedding follows the script function by function.  Python strings
    are [string]s, a [pathlib.Path] is represented by its [str()], the
    filesystem is a finite map from path strings to nodes (the ledger file
    is one of them), and the three external capabilities (MediaInfo,
    libmagic, ffmpeg) are oracles of an environment record.  Every function
    of the script is a computation in a small monad that threads the
    filesystem, collects the observable events (printed lines, probes,
    ffmpeg invocations) and may raise.

    Calls of the operating system are refused according to the kind of the
    node they meet (missing, directory, special file); permissions, disk
    space and signals are outside the model, and so are files that are not
    text where the script reads text (the ledger) and probe results whose
    attributes are not of the types the script uses them at.

    Layout: the model of the script; the vocabulary of the properties and a
    concrete environment to run the script on; then the properties. *)

From Stdlib Require Import Ascii String ZArith Lia.
From stdpp Require Import base tactics option list gmap strings.

Local Open Scope Z_scope.
Local Open Scope stdpp_scope.

(** ** Python strings *)

Abbreviation chars := String.list_ascii_of_string.
Abbreviation text := String.string_of_list_ascii.

(** "\n" and "\r". *)
Definition LF : ascii := "010"%char.
Definition CR : ascii := "013"%char.
Definition nl : string := String LF "".
Definition slash : ascii := "/"%char.
Definition dot : ascii := "."%char.

(** [str.rfind(c)] for a one-character needle: the highest index holding
    [c], [None] where Python answers [-1]. *)
Fixpoint rfind (c : ascii) (l : list ascii) : option nat :=
  match l with
  | [] => None
  | x :: r =>
      match rfind c r with
      | Some i => Some (S i)
      | None => if decide (x = c) then Some O else None
      end
  end.

(** [s.replace(c, '')]. *)
Definition remove_char (c : ascii) (s : string) : string :=
  text (filter (λ x, x ≠ c) (chars s)).

(** Truthiness of a string and of an optional string ([None] and [''] are
    falsy). *)
Definition truthy (s : string) : bool := negb (bool_decide (s = "")).
Definition truthy_opt (o : option string) : bool :=
  match o with Some s => truthy s | None => false end.

(** ** Exceptions and results *)

(** The exceptions the modelled calls raise.  [ffmpeg.Error] carries the
    [stderr] of the failed run: the captured text, or [None] when the run
    did not capture it.  [AttributeError] is what [None.decode()] raises;
    [RuntimeError] is what [MediaInfo.parse] raises on a path that
    libmediainfo cannot open. *)
Inductive exn :=
| FileNotFoundError (filename : string)
| IsADirectoryError (filename : string)
| NotADirectoryError (filename : string)
| OSError (filename : string)
| RuntimeError (filename : string)
| StopIteration
| ValueError (msg : string)
| AttributeError
| FfmpegError (stderr : option string).

#[global] Instance exn_eq_dec : EqDecision exn.
Proof. solve_decision. Defined.

Inductive outcome (A : Type) :=
| Ok (a : A)
| Raise (e : exn).
Arguments Ok {A} a.
Arguments Raise {A} e.

(** ** [pathlib] on path strings

    A [Path] object is represented by [str(path)]; the functions below are
    [PurePosixPath.name], [.suffix] and [.with_suffix] on that string. *)
Module Path.

Definition name_l (p : list ascii) : list ascii :=
  match rfind slash p with
  | Some i => drop (S i) p
  | None => p
  end.

(** [i = name.rfind('.')]; [name[i:]] if [0 < i < len(name) - 1] else ['']. *)
Definition name_suffix (n : list ascii) : list ascii :=
  match rfind dot n with
  | Some i =>
      if bool_decide (0 < i ∧ i < length n - 1)%nat then drop i n else []
  | None => []
  end.
Definition suffix_l (p : list ascii) : list ascii := name_suffix (name_l p).

Definition valid_suffix_l (s : list ascii) : bool :=
  negb (bool_decide (slash ∈ s))
  && negb (match s with
           | [] => false
           | c :: r => negb (bool_decide (c = dot)) || bool_decide (r = [])
           end).

(** The new path keeps everything before the old suffix. *)
Definition with_suffix_l (p s : list ascii) : option (list ascii) :=
  if negb (valid_suffix_l s) then None
  else
    let n := name_l p in
    if bool_decide (n = []) then None
    else
      let old := suffix_l p in
      let n' := take (length n - length old) n ++ s in
      Some (take (length p - length n) p ++ n').

(** [str(path.parent)]: what stands before the last separator; the root
    for an entry of the root, ["."] for a bare name. *)
Definition parent_l (p : list ascii) : list ascii :=
  match rfind slash p with
  | Some O => [slash]
  | Some i => take i p
  | None => [dot]
  end.

Definition name (p : string) : string := text (name_l (chars p)).
Definition parent (p : string) : string := text (parent_l (chars p)).
Definition suffix (p : string) : string := text (suffix_l (chars p)).
Definition with_suffix (p s : string) : outcome string :=
  match with_suffix_l (chars p) (chars s) with
  | Some q => Ok (text q)
  | None => Raise (ValueError ("Invalid suffix " +:+ s))
  end.

End Path.

(** ** The policy tables of the script *)

Definition _SUPPORTED_EXTENSIONS : list string :=
  ["mkv"; "avi"; "mp4"; "3gp"; "mov"; "mpg"; "mpeg"; "qt"; "wmv"; "m2ts"; "flv"].
Definition _SUPPORTED_SUBTITLE_EXTENSIONS : list string := ["srt"; "ssa"].

Definition _SUPPORTED_GFORMATS : list string := ["MPEG-4"; "Matroska"].
Definition _SUPPORTED_VCODECS : list string := ["AVC"].
Definition _SUPPORTED_ACODECS : list string :=
  ["AAC"; "MPEG Audio"; "Vorbis"; "Ogg"; "Opus"].

Definition _DEFAULT_VCODEC : string := "h264".
Definition _DEFAULT_ACODEC : string := "libvorbis".
Definition _DEFAULT_GFORMAT : string := "mp4".

(** [x in xs] on a list of strings. *)
Definition str_in (x : string) (xs : list string) : bool := bool_decide (x ∈ xs).

(** [not (codec == "AAC" and channels > 2) and codec in _SUPPORTED_ACODECS] *)
Definition is_supported_acodec (codec : string) (channels : Z) : bool :=
  negb (bool_decide (codec = "AAC") && bool_decide (channels > 2))
  && str_in codec _SUPPORTED_ACODECS.

(** Lines 95-99 of [process_file]: the output container, ["ok"] standing
    for "leave the container as it is". *)
Definition output_gformat_of
    (general_format : string) (override_gformat : option string)
    (extension : string) : string :=
  if (str_in general_format _SUPPORTED_GFORMATS && negb (truthy_opt override_gformat))
     || bool_decide (override_gformat = Some extension)
  then "ok"
  else if truthy_opt override_gformat then default "" override_gformat
  else _DEFAULT_GFORMAT.

(** Line 104 and line 109. *)
Definition output_vcodec_of (video_format : string) : string :=
  if str_in video_format _SUPPORTED_VCODECS then "copy" else _DEFAULT_VCODEC.
Definition output_acodec_of (audio_format : string) (channel_s : Z) : string :=
  if is_supported_acodec audio_format channel_s then "copy" else _DEFAULT_ACODEC.


(** ** The filesystem, the external capabilities, the events *)

Inductive node :=
| File (content : string)
| Dir
| Special.

#[global] Instance node_eq_dec : EqDecision node.
Proof. solve_decision. Defined.

Abbreviation World := (gmap string node).

(** One record of [MediaInfo.parse(...).tracks], with the attributes the
    script reads, at the types the script uses them at: a role tag, a
    format identifier that is a string (empty when undetermined, which the
    script tests by truthiness), a channel count that is an integer, and
    the duration already as text.  Probe results whose attributes have
    other types (an absent attribute reads as [None]) are not records of
    this type: statements about tracks are statements about probe results
    of these types. *)
Record Track := {
  track_type : string;
  format : string;
  channel_s : Z;
  duration : string
}.

(** The two ways the script calls ffmpeg: the subtitle conversion
    ([input(sub, sub_charenc=enc).output(dst)] with [-y]) and the media
    transcode ([input(src).output(dst, vcodec, acodec, scodec)] with
    [overwrite_output]). *)
Inductive ffmpeg_cmd :=
| Subtitle (src sub_charenc dst : string)
| Transcode (src dst vcodec acodec scodec : string).

Definition cmd_output (c : ffmpeg_cmd) : string :=
  match c with
  | Subtitle _ _ dst => dst
  | Transcode _ dst _ _ _ => dst
  end.

(** What one ffmpeg run did: it wrote the whole output, or it failed with
    its diagnostic text, possibly leaving a partial output behind. *)
Inductive ffmpeg_result :=
| Done (output : string)
| Failed (stderr : string) (partial : option string).

Record Env := {
  home : string;                                   (* [~] of [expanduser()] *)
  mediainfo : string → list Track;                 (* content to tracks *)
  magic : node → string;                           (* mime encoding *)
  ffmpeg : World → ffmpeg_cmd → ffmpeg_result;
  listing : list string → list string              (* order of [iterdir()] *)
}.

Inductive event :=
| Print (line : string)
| PrintErr (line : string)
| Probed (p : string)
| Ran (cmd : ffmpeg_cmd) (ok : bool).

(** ** The monad: filesystem state, event log, exceptions *)

Record res (A : Type) := Res {
  out : outcome A;
  post : World;
  evs : list event
}.
Arguments Res {A} out post evs.
Arguments out {A} r.
Arguments post {A} r.
Arguments evs {A} r.

Definition M (A : Type) : Type := World → res A.

Definition ret {A} (a : A) : M A := λ w, Res (Ok a) w [].
Definition raise {A} (e : exn) : M A := λ w, Res (Raise e) w [].
Definition bind {A B} (m : M A) (k : A → M B) : M B := λ w,
  match m w with
  | Res (Ok a) w1 e1 =>
      match k a w1 with
      | Res o w2 e2 => Res o w2 (e1 ++ e2)
      end
  | Res (Raise e) w1 e1 => Res (Raise e) w1 e1
  end.
Definition lift {A} (o : outcome A) : M A := λ w, Res o w [].
Definition emit (ev : event) : M unit := λ w, Res (Ok tt) w [ev].

(** [try: body  except ffmpeg.Error as e: handler(e.stderr)] *)
Definition try_except_ffmpeg (body : M unit) (handler : option string → M unit) : M unit :=
  λ w,
  match body w with
  | Res (Raise (FfmpegError stderr)) w1 e1 =>
      match handler stderr w1 with
      | Res o w2 e2 => Res o w2 (e1 ++ e2)
      end
  | r => r
  end.

Declare Scope py_scope.
Delimit Scope py_scope with py.
Notation "x <- m ;; k" := (bind m (λ x, k))
  (at level 100, m at next level, right associativity) : py_scope.
Notation "m ;; k" := (bind m (λ _, k))
  (at level 100, right associativity) : py_scope.
Local Open Scope py_scope.

Fixpoint for_each {A} (l : list A) (body : A → M unit) : M unit :=
  match l with
  | [] => ret tt
  | x :: r => body x ;; for_each r body
  end.

Definition print (line : string) : M unit := emit (Print line).
Definition print_err (line : string) : M unit := emit (PrintErr line).

(** [next(filter(pred, xs))] *)
Definition next_filter {A} (pred : A → bool) (xs : list A) : outcome A :=
  match List.find pred xs with
  | Some x => Ok x
  | None => Raise StopIteration
  end.

(** *** Text files

    Reading in text mode translates ["\r\n"] and ["\r"] to ["\n"]
    (universal newlines) and iterates over lines that keep their
    terminator. *)
Fixpoint universal_newlines_from (after_cr : bool) (s : list ascii) : list ascii :=
  match s with
  | [] => []
  | c :: r =>
      if decide (c = CR) then LF :: universal_newlines_from true r
      else if decide (c = LF) then
        if after_cr then universal_newlines_from false r
        else LF :: universal_newlines_from false r
      else c :: universal_newlines_from false r
  end.
Definition universal_newlines (s : list ascii) : list ascii :=
  universal_newlines_from false s.

Fixpoint split_keepends (cur : list ascii) (s : list ascii) : list string :=
  match s with
  | [] => match cur with [] => [] | _ => [text (rev cur)] end
  | c :: r =>
      if decide (c = LF) then text (rev (c :: cur)) :: split_keepends [] r
      else split_keepends (c :: cur) r
  end.

Definition readlines (content : string) : list string :=
  split_keepends [] (universal_newlines (chars content)).

(** *** Filesystem calls *)

Definition exists_ (p : string) : M bool := λ w,
  Res (Ok (bool_decide (is_Some (w !! p)))) w [].
Definition is_dir (p : string) : M bool := λ w,
  Res (Ok (bool_decide (w !! p = Some Dir))) w [].
Definition is_file (p : string) : M bool := λ w,
  Res (Ok (match w !! p with Some (File _) => true | _ => false end)) w [].

(** [with p.open() as f: for line in f]: the content of a file is its
    text; a regular file whose bytes are not text in the encoding of the
    locale has no content in this sense and is not a node of the model. *)
Definition open_read (p : string) : M (list string) := λ w,
  match w !! p with
  | Some (File c) => Res (Ok (readlines c)) w []
  | Some Dir => Res (Raise (IsADirectoryError p)) w []
  | Some Special => Res (Raise (OSError p)) w []
  | None => Res (Raise (FileNotFoundError p)) w []
  end.

(** [with p.open(mode='a') as f: f.write(s)]: appends to the file; an
    absent file is created when the directory that is to hold it exists,
    and the call is refused when that directory is missing or is not a
    directory. *)
Definition open_append (p s : string) : M unit := λ w,
  match w !! p with
  | Some (File c) => Res (Ok tt) (<[p := File (c +:+ s)]> w) []
  | Some Dir => Res (Raise (IsADirectoryError p)) w []
  | Some Special => Res (Raise (OSError p)) w []
  | None =>
      match w !! Path.parent p with
      | Some Dir => Res (Ok tt) (<[p := File s]> w) []
      | Some _ => Res (Raise (NotADirectoryError p)) w []
      | None => Res (Raise (FileNotFoundError p)) w []
      end
  end.

(** [p.unlink()] *)
Definition unlink (p : string) : M unit := λ w,
  match w !! p with
  | Some Dir => Res (Raise (IsADirectoryError p)) w []
  | Some _ => Res (Ok tt) (delete p w) []
  | None => Res (Raise (FileNotFoundError p)) w []
  end.

(** [src.replace(dst)]: rename, overwriting [dst]; a directory in the way
    is refused. *)
Definition replace (src dst : string) : M unit := λ w,
  match w !! src with
  | None => Res (Raise (FileNotFoundError src)) w []
  | Some n =>
      match w !! dst with
      | Some Dir => Res (Raise (IsADirectoryError dst)) w []
      | _ => Res (Ok tt) (<[dst := n]> (delete src w)) []
      end
  end.

(** [[x for x in d.iterdir()]]: the entries directly under [d]. *)
Definition joinpath (d n : string) : string :=
  if bool_decide (d = "/") then d +:+ n else d +:+ "/" +:+ n.
Definition child_of (d q : string) : bool :=
  let n := Path.name q in
  negb (bool_decide (n = "")) && bool_decide (q = joinpath d n).

(** ** The script *)

Section Script.

Variable env : Env.

Definition iterdir (d : string) : M (list string) := λ w,
  Res (Ok (listing env (filter (λ q, child_of d q = true) (elements (dom w))))) w [].

(** [MediaInfo.parse(p)]: a missing path raises [FileNotFoundError]; a
    path that exists but is not a regular file (a directory, a special
    file) is handed to libmediainfo, which cannot open it, and the call
    raises [RuntimeError]. *)
Definition MediaInfo_parse (p : string) : M (list Track) := λ w,
  match w !! p with
  | Some (File c) => Res (Ok (mediainfo env c)) w [Probed p]
  | Some Dir => Res (Raise (RuntimeError p)) w [Probed p]
  | Some Special => Res (Raise (RuntimeError p)) w [Probed p]
  | None => Res (Raise (FileNotFoundError p)) w [Probed p]
  end.

(** [Magic(mime_encoding=True).from_file(p)] on an existing path. *)
Definition Magic_from_file (p : string) : M string := λ w,
  Res (Ok (match w !! p with Some n => magic env n | None => "" end)) w [].

(** [ffmpeg....run(quiet=quiet)]: the output is written (wholly, or
    partially on a failure) and a failure raises [ffmpeg.Error].  The
    diagnostic text of ffmpeg is captured, and so carried by the exception,
    only when [quiet] is set; otherwise the [stderr] of the exception is
    [None]. *)
Definition captured (quiet : bool) (stderr : string) : option string :=
  if quiet then Some stderr else None.

Definition ffmpeg_run (c : ffmpeg_cmd) (quiet : bool) : M unit := λ w,
  match ffmpeg env w c with
  | Done o => Res (Ok tt) (<[cmd_output c := File o]> w) [Ran c true]
  | Failed stderr None => Res (Raise (FfmpegError (captured quiet stderr))) w [Ran c false]
  | Failed stderr (Some o) =>
      Res (Raise (FfmpegError (captured quiet stderr)))
        (<[cmd_output c := File o]> w) [Ran c false]
  end.

(** [e.stderr.decode()] in a handler of [ffmpeg.Error]: the captured text,
    or the [AttributeError] of [None.decode()]. *)
Definition decode (stderr : option string) : M string :=
  match stderr with
  | Some s => ret s
  | None => raise AttributeError
  end.

(** [Path('~/.chromecastize/processed_files').expanduser()] *)
Definition processed_files_path : string :=
  home env +:+ "/.chromecastize/processed_files".

Definition mark_as_good (video_file processed_files : string) : M unit :=
  open_append processed_files (video_file +:+ nl).

(** The [for sub_extension in ...] loop of [process_subtitle_file], left
    by [break] after the first subtitle found. *)
Fixpoint subtitle_loop (video_file destination_subtitle : string)
    (exts : list string) : M unit :=
  match exts with
  | [] => ret tt
  | sub_extension :: rest =>
      subtitle <- lift (Path.with_suffix video_file ("." +:+ sub_extension)) ;;
      found <- exists_ subtitle ;;
      if found : bool then
        detected <- Magic_from_file subtitle ;;
        let sub_encoding :=
          if bool_decide (detected = "unknown-8bit") then "iso-8859-1" else detected in
        try_except_ffmpeg
          (ffmpeg_run (Subtitle subtitle sub_encoding destination_subtitle) false ;;
           print ("- generated subtitle " +:+ destination_subtitle))
          (λ stderr, line <- decode stderr ;; print_err line)
      else subtitle_loop video_file destination_subtitle rest
  end.

Definition process_subtitle_file (video_file : string) : M unit :=
  destination_subtitle <- lift (Path.with_suffix video_file ".vtt") ;;
  present <- exists_ destination_subtitle ;;
  if negb present then
    subtitle_loop video_file destination_subtitle _SUPPORTED_SUBTITLE_EXTENSIONS
  else ret tt.

Definition on_success (original_file destination_file processed_files : string) : M unit :=
  print ("- conversion succeeded; file " +:+ destination_file +:+ " saved") ;;
  original_backup <-
    lift (Path.with_suffix original_file (Path.suffix original_file +:+ ".bak")) ;;
  print ("- renaming original file as " +:+ original_backup) ;;
  replace original_file original_backup ;;
  mark_as_good destination_file processed_files.

Definition on_failure (video_file destination_file : string) : M unit :=
  print ("- failed to convert " +:+ video_file +:+ " (or conversion has been interrupted)") ;;
  present <- exists_ destination_file ;;
  if present : bool then
    print "- deleting partially converted file..." ;;
    unlink destination_file
  else ret tt.

Definition process_file (video_file : string) (override_gformat : option string) : M unit :=
  print "===========" ;;
  print ("Processing: " +:+ video_file) ;;
  (* test extension *)
  let extension := Path.suffix video_file in
  if negb (str_in (remove_char "." extension) _SUPPORTED_EXTENSIONS) then
    print ("- not a video format, skipping " +:+ extension)
  else
    process_subtitle_file video_file ;;
    let processed_files := processed_files_path in
    lines <- open_read processed_files ;;
    if existsb (λ line, bool_decide (video_file +:+ nl = line)) lines then
      print "- file was generated by `chromecastize`, skipping"
    else
      (* test general format *)
      media_info <- MediaInfo_parse video_file ;;
      general_track <-
        lift (next_filter (λ t, bool_decide (track_type t = "General")) media_info) ;;
      if negb (truthy (format general_track)) then
        print "- error reading track info, skipping "
      else
        let output_gformat :=
          output_gformat_of (format general_track) override_gformat extension in
        print ("- general: " +:+ format general_track +:+ " -> " +:+ output_gformat) ;;
        (* test video codec *)
        video_track <-
          lift (next_filter (λ t, bool_decide (track_type t = "Video")) media_info) ;;
        let output_vcodec := output_vcodec_of (format video_track) in
        print ("- video: " +:+ format video_track +:+ " -> " +:+ output_vcodec) ;;
        (* test audio codec *)
        audio_track <-
          lift (next_filter (λ t, bool_decide (track_type t = "Audio")) media_info) ;;
        let output_acodec :=
          output_acodec_of (format audio_track) (channel_s audio_track) in
        print ("- audio: " +:+ format audio_track +:+ " -> " +:+ output_acodec) ;;
        if bool_decide (output_vcodec = "copy") && bool_decide (output_acodec = "copy")
           && bool_decide (output_gformat = "ok") then
          print "- file should be playable by Chromecast!" ;;
          mark_as_good video_file processed_files
        else
          print ("- video length: " +:+ duration general_track) ;;
          let output_gformat :=
            if bool_decide (output_gformat = "ok") then extension else output_gformat in
          (* Define the destination filename, stripping the original extension. *)
          destination_file <- lift (Path.with_suffix video_file ("." +:+ output_gformat)) ;;
          try_except_ffmpeg
            (ffmpeg_run (Transcode video_file destination_file
                           output_vcodec output_acodec "copy") true ;;
             on_success video_file destination_file processed_files)
            (λ stderr,
               line <- decode stderr ;;
               print_err line ;;
               on_failure video_file destination_file).

Definition main (paths : list string) : M unit :=
  for_each paths (λ path,
    present <- exists_ path ;;
    if negb present then
      print ("File not found (" +:+ path +:+ "). Skipping...")
    else
      d <- is_dir path ;;
      if d : bool then
        children <- iterdir path ;;
        for_each children (λ video_file, process_file video_file None)
      else
        f <- is_file path ;;
        if f : bool then process_file path None
        else print ("Invalid file (" +:+ path +:+ "). Skipping...")).

(** [args = parser.parse_args()]: the two flags of the mutually exclusive
    group, the optional configuration path, the positional paths. *)
Record Args := {
  mkv : bool;
  mp4 : bool;
  config : option string;
  videofile : list string
}.

(** The [if __name__ == "__main__":] block. *)
Definition script (args : Args) : M unit :=
  main (videofile args).

End Script.

(** ** Vocabulary of the properties *)

(** The extension test of [process_file]. *)
Definition supported_extension (p : string) : bool :=
  str_in (remove_char "." (Path.suffix p)) _SUPPORTED_EXTENSIONS.

(** The ledger scan of [process_file] on the content of the ledger file. *)
Definition in_ledger (p content : string) : bool :=
  existsb (λ line, bool_decide (p +:+ nl = line)) (readlines content).

(** The media transcodes and the probes among the events of a run. *)
Definition transcode_of (ev : event) : option (ffmpeg_cmd * bool) :=
  match ev with
  | Ran (Transcode src dst v a s) ok => Some (Transcode src dst v a s, ok)
  | _ => None
  end.
Definition transcodes (es : list event) : list (ffmpeg_cmd * bool) := omap transcode_of es.
Definition probe_of (ev : event) : option string :=
  match ev with Probed p => Some p | _ => None end.
Definition probes (es : list event) : list string := omap probe_of es.

(** The subtitle conversions among the events of a run. *)
Definition subtitle_of (ev : event) : option (ffmpeg_cmd * bool) :=
  match ev with
  | Ran (Subtitle src enc dst) ok => Some (Subtitle src enc dst, ok)
  | _ => None
  end.
Definition subtitle_runs (es : list event) : list (ffmpeg_cmd * bool) :=
  omap subtitle_of es.

(** The first track of a role, as [next(filter(...))] finds it. *)
Definition first_track (role : string) (ts : list Track) : outcome Track :=
  next_filter (λ t, bool_decide (track_type t = role)) ts.

(** An override that [with_suffix] accepts: no path separator in it. *)
Definition override_ok (o : option string) : Prop :=
  ∀ s, o = Some s → slash ∉ chars s.

(** The part of a path before its final component: empty, or ending with
    the separator. *)
Definition dir_prefix (d : list ascii) : Prop := d = [] ∨ ∃ d', d = d' ++ [slash].

(** A path whose final component holds a dot. *)
Definition dotted (q : string) : Prop := dot ∈ Path.name_l (chars q).

(** The exception of [open()] on a path that is not a regular file, and
    the exception of [MediaInfo.parse] on such a path. *)
Definition open_error (p : string) (n : option node) : exn :=
  match n with
  | Some Dir => IsADirectoryError p
  | Some Special => OSError p
  | _ => FileNotFoundError p
  end.
Definition probe_error (p : string) (n : option node) : exn :=
  match n with
  | Some _ => RuntimeError p
  | None => FileNotFoundError p
  end.

Definition is_regular (n : option node) : Prop := ∃ c, n = Some (File c).

(** The three tests of line 112 and the container of line 117. *)
Definition compliant (g v a : Track) (ov : option string) (ext : string) : bool :=
  bool_decide (output_vcodec_of (format v) = "copy")
  && bool_decide (output_acodec_of (format a) (channel_s a) = "copy")
  && bool_decide (output_gformat_of (format g) ov ext = "ok").
Definition destination_gformat (g : Track) (ov : option string) (ext : string) : string :=
  if bool_decide (output_gformat_of (format g) ov ext = "ok") then ext
  else output_gformat_of (format g) ov ext.

(** The probe result stops [process_file] with [StopIteration]: no General
    track, or a General track with a format but no Video or no Audio track. *)
Definition missing_track (ts : list Track) : Prop :=
  match first_track "General" ts with
  | Raise _ => True
  | Ok g =>
      format g ≠ "" ∧
      match first_track "Video" ts with
      | Raise _ => True
      | Ok _ => match first_track "Audio" ts with Raise _ => True | Ok _ => False end
      end
  end.

(** What the subtitle pass does: it invokes no media transcode and no
    probe, the only thing it can change is to create the [.vtt] sibling,
    and it returns unless its conversion failed: then the handler's
    [e.stderr.decode()] raises [AttributeError]. *)
Definition subtitle_post (w : World) (vtt : string)
    (o : outcome unit) (w' : World) (e : list event) : Prop :=
  (w' = w ∨ (w !! vtt = None ∧ ∃ c, w' = <[vtt := File c]> w))
  ∧ transcodes e = [] ∧ probes e = []
  ∧ match o with
    | Ok _ => Forall (λ x, x.2 = true) (subtitle_runs e)
    | Raise err => err = AttributeError ∧ ∃ cmd, (cmd, false) ∈ subtitle_runs e
    end.

(** *** What one call of [process_file] does

    [finish]: the transcode and [on_success] / [on_failure];
    [media_step]: everything after the subtitle pass;
    [file_step]: the whole call.  Each relates the filesystem before to the
    outcome, the filesystem after and the events. *)
Section Steps.

Variable env : Env.

Inductive finish (w1 : World) (p dst L : string) (cmd : ffmpeg_cmd) :
    outcome unit → World → list event → Prop :=
| finish_done output n bak e :
    ffmpeg env w1 cmd = Done output →
    <[dst := File output]> w1 !! p = Some n →
    Path.with_suffix p (Path.suffix p +:+ ".bak") = Ok bak →
    <[dst := File output]> w1 !! bak ≠ Some Dir →
    transcodes e = [(cmd, true)] → probes e = [] →
    subtitle_runs e = [] →
    finish w1 p dst L cmd (Ok tt)
      (<[processed_files_path env := File (L +:+ dst +:+ nl)]>
         (<[bak := n]> (delete p (<[dst := File output]> w1)))) e
| finish_backup_refused output bak e :
    ffmpeg env w1 cmd = Done output →
    Path.with_suffix p (Path.suffix p +:+ ".bak") = Ok bak →
    <[dst := File output]> w1 !! bak = Some Dir →
    transcodes e = [(cmd, true)] → probes e = [] →
    subtitle_runs e = [] →
    finish w1 p dst L cmd (Raise (IsADirectoryError bak)) (<[dst := File output]> w1) e
| finish_failed stderr partial w2 e :
    ffmpeg env w1 cmd = Failed stderr partial →
    w2 = match partial with Some o => <[dst := File o]> w1 | None => w1 end →
    w2 !! dst ≠ Some Dir →
    transcodes e = [(cmd, false)] → probes e = [] →
    PrintErr stderr ∈ e →
    subtitle_runs e = [] →
    Print ("- failed to convert " +:+ p +:+ " (or conversion has been interrupted)") ∈ e →
    finish w1 p dst L cmd (Ok tt) (delete dst w2) e
| finish_unlink_refused stderr e :
    ffmpeg env w1 cmd = Failed stderr None →
    w1 !! dst = Some Dir →
    transcodes e = [(cmd, false)] → probes e = [] →
    PrintErr stderr ∈ e →
    subtitle_runs e = [] →
    Print ("- failed to convert " +:+ p +:+ " (or conversion has been interrupted)") ∈ e →
    finish w1 p dst L cmd (Raise (IsADirectoryError dst)) w1 e.

Inductive media_step (w1 : World) (p : string) (ov : option string) :
    outcome unit → World → list event → Prop :=
| ms_ledger_unreadable e :
    ¬ is_regular (w1 !! processed_files_path env) →
    transcodes e = [] → probes e = [] →
    subtitle_runs e = [] →
    media_step w1 p ov
      (Raise (open_error (processed_files_path env) (w1 !! processed_files_path env))) w1 e
| ms_ledger_hit L e :
    w1 !! processed_files_path env = Some (File L) →
    in_ledger p L = true →
    transcodes e = [] → probes e = [] →
    subtitle_runs e = [] →
    media_step w1 p ov (Ok tt) w1 e
| ms_probe_refused L e :
    w1 !! processed_files_path env = Some (File L) →
    in_ledger p L = false →
    ¬ is_regular (w1 !! p) →
    transcodes e = [] → probes e = [p] →
    subtitle_runs e = [] →
    media_step w1 p ov (Raise (probe_error p (w1 !! p))) w1 e
| ms_missing_track L c e :
    w1 !! processed_files_path env = Some (File L) →
    in_ledger p L = false →
    w1 !! p = Some (File c) →
    missing_track (mediainfo env c) →
    transcodes e = [] → probes e = [p] →
    subtitle_runs e = [] →
    media_step w1 p ov (Raise StopIteration) w1 e
| ms_unreadable L c g e :
    w1 !! processed_files_path env = Some (File L) →
    in_ledger p L = false →
    w1 !! p = Some (File c) →
    first_track "General" (mediainfo env c) = Ok g →
    format g = "" →
    transcodes e = [] → probes e = [p] →
    Print "- error reading track info, skipping " ∈ e →
    subtitle_runs e = [] →
    media_step w1 p ov (Ok tt) w1 e
| ms_compliant L c g v a e :
    w1 !! processed_files_path env = Some (File L) →
    in_ledger p L = false →
    w1 !! p = Some (File c) →
    first_track "General" (mediainfo env c) = Ok g →
    format g ≠ "" →
    first_track "Video" (mediainfo env c) = Ok v →
    first_track "Audio" (mediainfo env c) = Ok a →
    compliant g v a ov (Path.suffix p) = true →
    transcodes e = [] → probes e = [p] →
    subtitle_runs e = [] →
    media_step w1 p ov (Ok tt)
      (<[processed_files_path env := File (L +:+ p +:+ nl)]> w1) e
| ms_bad_override L c g v a err e :
    w1 !! processed_files_path env = Some (File L) →
    in_ledger p L = false →
    w1 !! p = Some (File c) →
    first_track "General" (mediainfo env c) = Ok g →
    format g ≠ "" →
    first_track "Video" (mediainfo env c) = Ok v →
    first_track "Audio" (mediainfo env c) = Ok a →
    compliant g v a ov (Path.suffix p) = false →
    Path.with_suffix p ("." +:+ destination_gformat g ov (Path.suffix p)) = Raise err →
    transcodes e = [] → probes e = [p] →
    subtitle_runs e = [] →
    media_step w1 p ov (Raise err) w1 e
| ms_transform L c g v a dst o w' e1 e :
    w1 !! processed_files_path env = Some (File L) →
    in_ledger p L = false →
    w1 !! p = Some (File c) →
    first_track "General" (mediainfo env c) = Ok g →
    format g ≠ "" →
    first_track "Video" (mediainfo env c) = Ok v →
    first_track "Audio" (mediainfo env c) = Ok a →
    compliant g v a ov (Path.suffix p) = false →
    Path.with_suffix p ("." +:+ destination_gformat g ov (Path.suffix p)) = Ok dst →
    finish w1 p dst L
      (Transcode p dst (output_vcodec_of (format v))
         (output_acodec_of (format a) (channel_s a)) "copy") o w' e1 →
    transcodes e = transcodes e1 → probes e = [p] →
    (∀ ev, ev ∈ e1 → ev ∈ e) →
    subtitle_runs e = [] →
    media_step w1 p ov o w' e.

Inductive file_step (w : World) (p : string) (ov : option string) :
    outcome unit → World → list event → Prop :=
| fs_not_video e :
    supported_extension p = false →
    transcodes e = [] → probes e = [] →
    subtitle_runs e = [] →
    file_step w p ov (Ok tt) w e
| fs_media vtt w1 o w' e1 e :
    supported_extension p = true →
    Path.with_suffix p ".vtt" = Ok vtt →
    w1 = post (process_subtitle_file env p w) →
    w1 = w ∨ (w !! vtt = None ∧ ∃ c, w1 = <[vtt := File c]> w) →
    w1 !! p = w !! p →
    w1 !! processed_files_path env = w !! processed_files_path env →
    media_step w1 p ov o w' e1 →
    transcodes e = transcodes e1 → probes e = probes e1 →
    (∀ ev, ev ∈ e1 → ev ∈ e) →
    out (process_subtitle_file env p w) = Ok tt →
    Forall (λ x, x.2 = true) (subtitle_runs e) →
    file_step w p ov o w' e
| fs_subtitle_failed vtt w' e :
    supported_extension p = true →
    Path.with_suffix p ".vtt" = Ok vtt →
    w' = post (process_subtitle_file env p w) →
    w' = w ∨ (w !! vtt = None ∧ ∃ c, w' = <[vtt := File c]> w) →
    transcodes e = [] → probes e = [] →
    out (process_subtitle_file env p w) = Raise AttributeError →
    (∃ cmd, (cmd, false) ∈ subtitle_runs e) →
    file_step w p ov (Raise AttributeError) w' e.

End Steps.

(** [wp m w Q]: running [m] from [w] ends in an outcome, a filesystem and
    events that satisfy [Q]. *)
Definition wp {A} (m : M A) (w : World)
    (Q : outcome A → World → list event → Prop) : Prop :=
  Q (out (m w)) (post (m w)) (evs (m w)).

(** *** Vocabulary of the second run *)

(** No line break in a path. *)
Definition nl_free (p : string) : Prop := (LF ∉ chars p) ∧ (CR ∉ chars p).

#[global] Instance nl_free_dec p : Decision (nl_free p).
Proof. unfold nl_free. apply _. Defined.

(** The ledger text, as the reader sees it, is empty or ends with a line
    break: it is made of complete lines. *)
Definition complete_lines (content : string) : Prop :=
  universal_newlines (chars content) = []
  ∨ ∃ a, universal_newlines (chars content) = a ++ [LF].



Section Second_run.

Variable env : Env.










End Second_run.


(** *** Vocabulary of the further properties *)

(** Line 44: the encoding handed to ffmpeg for a detected one. *)
Definition sub_encoding_of (detected : string) : string :=
  if bool_decide (detected = "unknown-8bit") then "iso-8859-1" else detected.

(** The text of the ledger file, empty when the file is absent. *)
Definition ledger_text (w : World) (ledger : string) : string :=
  match w !! ledger with Some (File c) => c | _ => "" end.

(** [appended_to w w' ledger]: from [w] to [w'] the ledger file has only
    been appended to; a ledger that is absent or not a regular file is as
    it was. *)
Definition appended_to (w w' : World) (ledger : string) : Prop :=
  match w !! ledger with
  | Some (File L) => ∃ added, w' !! ledger = Some (File (L +:+ added))
  | other => w' !! ledger = other
  end.


(** The report of [main] on an input path that is neither a regular file
    nor a directory. *)
Definition skip_report (w : World) (path : string) : event :=
  match w !! path with
  | None => Print ("File not found (" +:+ path +:+ "). Skipping...")
  | Some _ => Print ("Invalid file (" +:+ path +:+ "). Skipping...")
  end.

(** [changed_within S w w']: every path whose entry differs between [w]
    and [w'] satisfies [S]. *)
Definition changed_within (S : string → Prop) (w w' : World) : Prop :=
  ∀ q, w' !! q ≠ w !! q → S q.

(** The paths on which [main] calls [process_file]: the input paths and
    the direct entries of the input paths. *)
Definition in_scope (paths : list string) (q : string) : Prop :=
  q ∈ paths ∨ ∃ d, d ∈ paths ∧ child_of d q = true.

(** ** A concrete environment and filesystem

    Used to run the script on explicit inputs.  File contents are short
    labels; the probe oracle reads the label, the ffmpeg oracle refuses an
    output that is its own input, fails half-way on a truncated source and
    succeeds otherwise. *)
Definition track (role fmt : string) (ch : Z) : Track :=
  {| track_type := role; format := fmt; channel_s := ch; duration := "60000" |}.

Definition demo_mediainfo (content : string) : list Track :=
  if bool_decide (content = "mp4/avc/aac") then
    [track "General" "MPEG-4" 0; track "Video" "AVC" 0; track "Audio" "AAC" 2]
  else if bool_decide (content = "avi/xvid/mp3") then
    [track "General" "AVI" 0; track "Video" "MPEG-4 Visual" 0; track "Audio" "MPEG Audio" 2]
  else if bool_decide (content = "mkv/hevc/ac3") then
    [track "General" "Matroska" 0; track "Video" "HEVC" 0; track "Audio" "AC-3" 6]
  else if bool_decide (content = "mkv/hevc/ac3 truncated") then
    [track "General" "Matroska" 0; track "Video" "HEVC" 0; track "Audio" "AC-3" 6]
  else if bool_decide (content = "mp4/aac") then
    [track "General" "MPEG-4" 0; track "Audio" "AAC" 2]
  else [track "General" "" 0].

Definition demo_ffmpeg (w : World) (c : ffmpeg_cmd) : ffmpeg_result :=
  match c with
  | Subtitle _ _ _ => Done "WEBVTT"
  | Transcode src dst _ _ _ =>
      if bool_decide (src = dst) then Failed "Output same as Input #0 - exiting" None
      else match w !! src with
           | Some (File content) =>
               if bool_decide (content = "mkv/hevc/ac3 truncated")
               then Failed "Invalid data found when processing input" (Some "partial")
               else Done "mp4/avc/aac"
           | _ => Failed "No such file or directory" None
           end
  end.

Definition demo_env : Env := {|
  home := "/home/user";
  mediainfo := demo_mediainfo;
  magic := λ _, "utf-8";
  ffmpeg := demo_ffmpeg;
  listing := λ l, l
|}.

(** An environment whose subtitle converter fails after writing part of its
    output, and whose encoding detection gives up. *)
Definition demo_env_subtitles : Env := {|
  home := "/home/user";
  mediainfo := demo_mediainfo;
  magic := λ _, "unknown-8bit";
  ffmpeg := λ w c,
    match c with
    | Subtitle _ _ _ => Failed "Invalid data found when processing input" (Some "WEBVTT")
    | _ => demo_ffmpeg w c
    end;
  listing := λ l, l
|}.

Definition demo_ledger : string := "/home/user/.chromecastize/processed_files".

Definition demo_files : World :=
  list_to_map [
    ("/home/user/.chromecastize", Dir);
    ("/v", Dir);
    ("/v/a.mp4", File "mp4/avc/aac");
    ("/v/b.avi", File "avi/xvid/mp3");
    ("/v/c.mp4", File "avi/xvid/mp3");
    ("/v/d.mp4", File "mp4/aac");
    ("/v/e.mkv", File "mkv/hevc/ac3");
    ("/v/t.mkv", File "mkv/hevc/ac3 truncated")
  ].

(** The same files with an empty ledger file in place. *)
Definition demo_world : World := <[demo_ledger := File ""]> demo_files.


(** * Properties *)

(** ** Strings and paths *)

Example suffix_of_media_file : Path.suffix "/v/a.mkv" = ".mkv".
Proof. reflexivity. Qed.
Example suffix_of_hidden_file : Path.suffix "/v/.bashrc" = "".
Proof. reflexivity. Qed.
Example suffix_ignores_directories : Path.suffix "/v.d/a" = "".
Proof. reflexivity. Qed.
Example with_suffix_replaces : Path.with_suffix "/v/a.mkv" ".mp4" = Ok "/v/a.mp4".
Proof. reflexivity. Qed.
Example with_suffix_double_dot : Path.with_suffix "/v/a.mkv" "..mkv" = Ok "/v/a..mkv".
Proof. reflexivity. Qed.
Example with_suffix_backup : Path.with_suffix "/v/a.mkv" ".mkv.bak" = Ok "/v/a.mkv.bak".
Proof. reflexivity. Qed.
Example readlines_universal :
  readlines ("/v/a.mp4" +:+ String CR nl +:+ "/v/b.mp4" +:+ nl +:+ "tail")
  = ["/v/a.mp4" +:+ nl; "/v/b.mp4" +:+ nl; "tail"].
Proof. reflexivity. Qed.

Lemma chars_app (a b : string) : chars (a +:+ b) = chars a ++ chars b.
Proof. induction a as [|c a IH]; simpl; [done | by rewrite IH]. Qed.

Lemma text_app (a b : list ascii) : text (a ++ b) = text a +:+ text b.
Proof. induction a as [|c a IH]; simpl; [done | by rewrite IH]. Qed.

Lemma text_chars (s : string) : text (chars s) = s.
Proof. apply String.string_of_list_ascii_of_string. Qed.

Lemma chars_text (l : list ascii) : chars (text l) = l.
Proof. apply String.list_ascii_of_string_of_list_ascii. Qed.

Lemma chars_inj (a b : string) : chars a = chars b → a = b.
Proof. intros H. rewrite <- (text_chars a), <- (text_chars b). by rewrite H. Qed.

Lemma text_inj (a b : list ascii) : text a = text b → a = b.
Proof. intros H. rewrite <- (chars_text a), <- (chars_text b). by rewrite H. Qed.

Lemma rfind_None c l : rfind c l = None ↔ c ∉ l.
Proof.
  induction l as [|x r IH]; simpl.
  - split; [intros _; apply not_elem_of_nil | done].
  - destruct (rfind c r) as [i|] eqn:E.
    + split; [done|]. intros Hn. exfalso. destruct IH as [_ IH].
      assert (c ∉ r) as Hr by (intros ?; apply Hn; by right).
      by specialize (IH Hr).
    + destruct IH as [IH _]. specialize (IH eq_refl).
      destruct (decide (x = c)) as [->|Hne].
      * split; [done|]. intros Hn. exfalso. apply Hn. by left.
      * split; [|done]. intros _ [?|?]%elem_of_cons; [by subst | done].
Qed.

Lemma rfind_app_last c l t : c ∉ t → rfind c (l ++ c :: t) = Some (length l).
Proof.
  intros Ht. induction l as [|x r IH]; simpl.
  - apply rfind_None in Ht. rewrite Ht. by rewrite decide_True.
  - by rewrite IH.
Qed.

Lemma rfind_Some c l i :
  rfind c l = Some i → ∃ l1 l2, l = l1 ++ c :: l2 ∧ length l1 = i ∧ c ∉ l2.
Proof.
  revert i. induction l as [|x r IH]; simpl; [done|]. intros i.
  destruct (rfind c r) as [j|] eqn:E.
  - intros [= <-]. destruct (IH j eq_refl) as (l1 & l2 & -> & <- & Hn).
    by exists (x :: l1), l2.
  - destruct (decide (x = c)) as [->|]; [|done]. intros [= <-].
    exists [], r. split_and!; [done..|]. by apply rfind_None.
Qed.

Lemma name_l_decomp p :
  ∃ d, p = d ++ Path.name_l p ∧ (slash ∉ Path.name_l p) ∧ dir_prefix d.
Proof.
  unfold Path.name_l. destruct (rfind slash p) as [i|] eqn:E.
  - apply rfind_Some in E as (l1 & l2 & -> & <- & Hn).
    exists (l1 ++ [slash]).
    replace (drop (S (length l1)) (l1 ++ slash :: l2)) with l2.
    + split_and!; [by rewrite <- app_assoc | done | right; by eexists].
    + rewrite (cons_middle _ l1 l2), app_assoc.
      rewrite drop_app_length'; [done | rewrite length_app; simpl; lia].
  - exists []. split_and!; [done | by apply rfind_None | by left].
Qed.

Lemma name_l_app d n :
  slash ∉ n → dir_prefix d → Path.name_l (d ++ n) = n.
Proof.
  intros Hn [->|[d' ->]]; unfold Path.name_l.
  - simpl. apply rfind_None in Hn. by rewrite Hn.
  - rewrite <- app_assoc. simpl. rewrite rfind_app_last by done.
    rewrite (cons_middle _ d' n), app_assoc.
    rewrite drop_app_length'; [done | rewrite length_app; simpl; lia].
Qed.

Lemma name_suffix_spec n :
  Path.name_suffix n = [] ∨
  ∃ stem t, n = stem ++ dot :: t ∧ stem ≠ [] ∧ t ≠ [] ∧ (dot ∉ t)
            ∧ Path.name_suffix n = dot :: t.
Proof.
  unfold Path.name_suffix. destruct (rfind dot n) as [i|] eqn:E; [|by left].
  case_bool_decide as Hi; [|by left]. right.
  apply rfind_Some in E as (l1 & l2 & -> & <- & Hn).
  exists l1, l2. rewrite length_app in Hi. simpl in Hi.
  split_and!; [done | | | done |].
  - intros ->. simpl in Hi. lia.
  - intros ->. simpl in Hi. lia.
  - by rewrite drop_app_length.
Qed.

Lemma name_suffix_app stem s1 t :
  stem ≠ [] → t ≠ [] → dot ∉ t →
  Path.name_suffix (stem ++ s1 ++ dot :: t) = dot :: t.
Proof.
  intros Hs Ht Hn. unfold Path.name_suffix.
  rewrite app_assoc, rfind_app_last by done.
  rewrite bool_decide_true.
  - by rewrite drop_app_length.
  - rewrite !length_app. simpl. destruct stem; [done|]. destruct t; [done|].
    simpl. lia.
Qed.

Lemma with_suffix_l_Some p s q :
  Path.with_suffix_l p s = Some q →
  ∃ d stem,
    p = d ++ stem ++ Path.suffix_l p ∧ q = d ++ stem ++ s ∧
    stem ≠ [] ∧ (slash ∉ stem) ∧ (slash ∉ s) ∧ dir_prefix d ∧
    Path.name_l p = stem ++ Path.suffix_l p ∧ Path.valid_suffix_l s = true.
Proof.
  unfold Path.with_suffix_l, Path.suffix_l.
  destruct (Path.valid_suffix_l s) eqn:Hv; simpl; [|done].
  case_bool_decide as Hne; [done|]. intros [= <-].
  destruct (name_l_decomp p) as (d & Hp & Hslash & Hd).
  assert (slash ∉ s) as Hs.
  { unfold Path.valid_suffix_l in Hv. apply andb_true_iff in Hv as [Hv _].
    apply negb_true_iff, bool_decide_eq_false in Hv. done. }
  remember (Path.name_l p) as n eqn:En. clear En. subst p.
  rewrite length_app.
  replace (length d + length n - length n)%nat with (length d) by lia.
  rewrite take_app_length.
  destruct (name_suffix_spec n) as [E|(stem & t & Hn & Hstem & Ht & Hdot & E)].
  - rewrite E. simpl. rewrite Nat.sub_0_r, firstn_all.
    exists d, n. rewrite app_nil_r. by split_and!.
  - rewrite E. exists d, stem. subst n. rewrite length_app.
    replace (length stem + length (dot :: t) - length (dot :: t))%nat
      with (length stem) by lia.
    rewrite take_app_length.
    split_and!; try done.
    intros Hin. apply Hslash. apply elem_of_app. by left.
Qed.

Lemma with_suffix_l_is_Some p s :
  Path.valid_suffix_l s = true → Path.name_l p ≠ [] → is_Some (Path.with_suffix_l p s).
Proof.
  intros Hv Hn. unfold Path.with_suffix_l. rewrite Hv. simpl.
  rewrite bool_decide_false by done. by eexists.
Qed.

Lemma suffix_l_with_suffix p s q s1 t :
  Path.with_suffix_l p s = Some q → s = s1 ++ dot :: t → t ≠ [] → dot ∉ t →
  Path.suffix_l q = dot :: t.
Proof.
  intros Hq -> Ht Hdot.
  apply with_suffix_l_Some in Hq as (d & stem & _ & -> & Hstem & Hsl & Hs & Hd & _ & _).
  unfold Path.suffix_l. rewrite name_l_app; [| |done].
  - by apply name_suffix_app.
  - intros [?|?]%elem_of_app; done.
Qed.

Lemma suffix_l_nonempty_name p : Path.suffix_l p ≠ [] → Path.name_l p ≠ [].
Proof.
  unfold Path.suffix_l. intros H E. rewrite E in H. by apply H.
Qed.

(** ** Running computations *)

Lemma wp_bind {A B} (m : M A) (k : A → M B) w Q :
  wp m w (λ o w1 e1,
    match o with
    | Ok a => wp (k a) w1 (λ o2 w2 e2, Q o2 w2 (e1 ++ e2))
    | Raise e => Q (Raise e) w1 e1
    end) →
  wp (bind m k) w Q.
Proof.
  unfold wp, bind. destruct (m w) as [[a|e] w1 e1]; simpl; [|done].
  by destruct (k a w1).
Qed.

Lemma wp_try (body : M unit) handler w Q :
  wp body w (λ o w1 e1,
    match o with
    | Raise (FfmpegError stderr) =>
        wp (handler stderr) w1 (λ o2 w2 e2, Q o2 w2 (e1 ++ e2))
    | _ => Q o w1 e1
    end) →
  wp (try_except_ffmpeg body handler) w Q.
Proof.
  unfold wp, try_except_ffmpeg. destruct (body w) as [[a|e] w1 e1]; simpl; [done|].
  destruct e; try done. by destruct (handler stderr w1).
Qed.

Lemma wp_mono {A} (m : M A) w (Q Q' : outcome A → World → list event → Prop) :
  wp m w Q → (∀ o w1 e1, Q o w1 e1 → Q' o w1 e1) → wp m w Q'.
Proof. unfold wp. auto. Qed.

Lemma wp_mono_res {A} (m : M A) w (Q Q' : outcome A → World → list event → Prop) :
  wp m w Q →
  (∀ o w1 e1, o = out (m w) → w1 = post (m w) → Q o w1 e1 → Q' o w1 e1) →
  wp m w Q'.
Proof. unfold wp. auto. Qed.

Lemma wp_ret {A} (a : A) w Q : Q (Ok a) w [] → wp (ret a) w Q.
Proof. done. Qed.

Lemma wp_raise {A} (e : exn) w (Q : outcome A → World → list event → Prop) :
  Q (Raise e) w [] → wp (raise e) w Q.
Proof. done. Qed.

Lemma wp_lift {A} (o : outcome A) w Q : Q o w [] → wp (lift o) w Q.
Proof. done. Qed.

Lemma wp_print line w Q : Q (Ok tt) w [Print line] → wp (print line) w Q.
Proof. done. Qed.

Lemma wp_print_err line w Q : Q (Ok tt) w [PrintErr line] → wp (print_err line) w Q.
Proof. done. Qed.

Lemma wp_exists p w Q : Q (Ok (bool_decide (is_Some (w !! p)))) w [] → wp (exists_ p) w Q.
Proof. done. Qed.

Lemma wp_ffmpeg_run env c quiet w (Q : outcome unit → World → list event → Prop) :
  (∀ o, ffmpeg env w c = Done o → Q (Ok tt) (<[cmd_output c := File o]> w) [Ran c true]) →
  (∀ s, ffmpeg env w c = Failed s None →
        Q (Raise (FfmpegError (captured quiet s))) w [Ran c false]) →
  (∀ s o, ffmpeg env w c = Failed s (Some o) →
          Q (Raise (FfmpegError (captured quiet s)))
            (<[cmd_output c := File o]> w) [Ran c false]) →
  wp (ffmpeg_run env c quiet) w Q.
Proof.
  intros H1 H2 H3. unfold wp, ffmpeg_run.
  destruct (ffmpeg env w c) as [o|s [o|]]; simpl; eauto.
Qed.

(** One step of symbolic execution of a computation in a [wp] goal. *)
Ltac wp_step :=
  lazymatch goal with
  | |- wp (bind _ _) _ _ => apply wp_bind
  | |- wp (ret _) _ _ => apply wp_ret
  | |- wp (raise _) _ _ => apply wp_raise
  | |- wp (decode (Some _)) _ _ => apply wp_ret
  | |- wp (decode None) _ _ => apply wp_raise
  | |- wp (lift _) _ _ => apply wp_lift
  | |- wp (print _) _ _ => apply wp_print
  | |- wp (print_err _) _ _ => apply wp_print_err
  | |- wp (exists_ _) _ _ => apply wp_exists
  | |- wp (try_except_ffmpeg _ _) _ _ => apply wp_try
  end.

(** ** Paths of the script *)

Lemma suffix_chars p : chars (Path.suffix p) = Path.suffix_l (chars p).
Proof. unfold Path.suffix. by rewrite chars_text. Qed.

Lemma with_suffix_Ok_inv p s q :
  Path.with_suffix p s = Ok q → Path.with_suffix_l (chars p) (chars s) = Some (chars q).
Proof.
  unfold Path.with_suffix. destruct (Path.with_suffix_l _ _); [|done].
  intros [= <-]. by rewrite chars_text.
Qed.

Lemma supported_extension_suffix p :
  supported_extension p = true → Path.suffix p ≠ "".
Proof.
  unfold supported_extension. intros H E. rewrite E in H. by vm_compute in H.
Qed.

Lemma suffix_name_nonempty p : Path.suffix p ≠ "" → Path.name_l (chars p) ≠ [].
Proof.
  intros H. apply suffix_l_nonempty_name. intros E. apply H.
  unfold Path.suffix. by rewrite E.
Qed.

Lemma with_suffix_Ok p s :
  Path.valid_suffix_l (chars s) = true → Path.suffix p ≠ "" →
  ∃ q, Path.with_suffix p s = Ok q.
Proof.
  intros Hv Hp. unfold Path.with_suffix.
  destruct (with_suffix_l_is_Some (chars p) (chars s) Hv) as [q ->]; [|by eexists].
  by apply suffix_name_nonempty.
Qed.

Lemma suffix_with_suffix p s q s1 t :
  Path.with_suffix p s = Ok q → chars s = s1 ++ dot :: chars t → t ≠ "" → dot ∉ chars t →
  Path.suffix q = "." +:+ t.
Proof.
  intros Hq Hs Ht Hdot. apply with_suffix_Ok_inv in Hq.
  unfold Path.suffix.
  rewrite (suffix_l_with_suffix _ _ _ s1 (chars t) Hq Hs); [| |done].
  - simpl. by rewrite text_chars.
  - intros E. apply Ht. apply chars_inj. by rewrite E.
Qed.

Lemma with_suffix_length p s q :
  Path.with_suffix p s = Ok q →
  (length (chars q) + length (chars (Path.suffix p)) = length (chars p) + length (chars s))%nat.
Proof.
  intros Hq. apply with_suffix_Ok_inv in Hq. rewrite suffix_chars.
  apply with_suffix_l_Some in Hq as (d & stem & Hp & Hq & _).
  rewrite Hq. rewrite Hp at 2. rewrite !length_app. lia.
Qed.


Lemma wp_magic env p w Q :
  Q (Ok (match w !! p with Some n => magic env n | None => "" end)) w [] →
  wp (Magic_from_file env p) w Q.
Proof. done. Qed.

Lemma transcodes_app e1 e2 : transcodes (e1 ++ e2) = transcodes e1 ++ transcodes e2.
Proof. apply omap_app. Qed.

Lemma probes_app e1 e2 : probes (e1 ++ e2) = probes e1 ++ probes e2.
Proof. apply omap_app. Qed.

Lemma subtitle_runs_app e1 e2 :
  subtitle_runs (e1 ++ e2) = subtitle_runs e1 ++ subtitle_runs e2.
Proof. apply omap_app. Qed.

(** ** The subtitle pass *)

Lemma subtitle_loop_spec env p vtt exts w :
  Path.suffix p ≠ "" →
  Forall (λ x, Path.valid_suffix_l (chars ("." +:+ x)) = true) exts →
  w !! vtt = None →
  wp (subtitle_loop env p vtt exts) w (subtitle_post w vtt).
Proof.
  intros Hp Hexts Hvtt. induction Hexts as [|x exts Hx _ IH]; simpl.
  - wp_step. unfold subtitle_post. split_and!; auto.
  - destruct (with_suffix_Ok p ("." +:+ x) Hx Hp) as [sub ->].
    do 2 wp_step. wp_step. wp_step.
    destruct (bool_decide (is_Some (w !! sub))); [|apply IH].
    wp_step. apply wp_magic. wp_step. wp_step.
    apply wp_ffmpeg_run; simpl.
    + intros o _. wp_step. unfold subtitle_post. split_and!; eauto.
      by repeat constructor.
    + intros s _. do 2 wp_step. unfold subtitle_post. split_and!; eauto.
      eexists. apply list_elem_of_here.
    + intros s o _. do 2 wp_step. unfold subtitle_post. split_and!; eauto.
      eexists. apply list_elem_of_here.
Qed.

Lemma process_subtitle_file_spec env p w :
  Path.suffix p ≠ "" →
  ∃ vtt, Path.with_suffix p ".vtt" = Ok vtt ∧
         wp (process_subtitle_file env p) w (subtitle_post w vtt).
Proof.
  intros Hp. destruct (with_suffix_Ok p ".vtt" eq_refl Hp) as [vtt Hvtt].
  exists vtt. split; [done|]. unfold process_subtitle_file. rewrite Hvtt.
  do 2 wp_step. wp_step. wp_step.
  case_bool_decide as Hex; cbn [negb].
  - wp_step. unfold subtitle_post. split_and!; auto.
  - eapply wp_mono.
    + apply subtitle_loop_spec; [done | by repeat constructor |].
      by apply eq_None_not_Some.
    + by intros o w1 e1 H.
Qed.

Lemma with_suffix_dotted p s q : Path.with_suffix p s = Ok q → s ≠ "" → dotted q.
Proof.
  intros Hq Hs. apply with_suffix_Ok_inv in Hq.
  apply with_suffix_l_Some in Hq as (d & stem & _ & Hq & _ & Hsl & Hss & Hd & _ & Hv).
  unfold dotted. rewrite Hq, name_l_app; [| |done].
  - apply elem_of_app. right. unfold Path.valid_suffix_l in Hv.
    destruct (chars s) as [|c r] eqn:E.
    + exfalso. apply Hs. apply chars_inj. by rewrite E.
    + apply andb_true_iff in Hv as [_ Hv]. apply negb_true_iff, orb_false_iff in Hv as [Hv _].
      apply negb_false_iff, bool_decide_eq_true in Hv. subst c. by left.
  - intros [?|?]%elem_of_app; done.
Qed.

Lemma suffix_dotted p : Path.suffix p ≠ "" → dotted p.
Proof.
  intros H. unfold dotted.
  destruct (name_suffix_spec (Path.name_l (chars p))) as [E|(stem & t & Hn & _)].
  - exfalso. apply H. unfold Path.suffix, Path.suffix_l. by rewrite E.
  - rewrite Hn. apply elem_of_app. right. by left.
Qed.

Lemma processed_files_not_dotted env : ¬ dotted (processed_files_path env).
Proof.
  unfold dotted, processed_files_path. rewrite chars_app.
  change (chars "/.chromecastize/processed_files")
    with ((chars "/.chromecastize" ++ [slash]) ++ chars "processed_files").
  rewrite app_assoc, name_l_app; [compute_done | compute_done |].
  right. exists (chars (home env) ++ chars "/.chromecastize"). by rewrite app_assoc.
Qed.

Lemma dotted_not_ledger env q : dotted q → processed_files_path env ≠ q.
Proof. intros Hq E. subst q. by apply (processed_files_not_dotted env). Qed.

Lemma backup_path p :
  Path.suffix p ≠ "" →
  ∃ bak, Path.with_suffix p (Path.suffix p +:+ ".bak") = Ok bak
         ∧ Path.suffix bak = ".bak" ∧ dotted bak.
Proof.
  intros Hp.
  assert (Path.valid_suffix_l (chars (Path.suffix p +:+ ".bak")) = true) as Hv.
  { rewrite chars_app, suffix_chars. unfold Path.suffix_l.
    destruct (name_l_decomp (chars p)) as (d & _ & Hsl & _).
    destruct (name_suffix_spec (Path.name_l (chars p))) as [E|(stem & t & Hn & _ & Ht & _ & E)].
    - exfalso. apply Hp. unfold Path.suffix, Path.suffix_l. by rewrite E.
    - rewrite E. unfold Path.valid_suffix_l. apply andb_true_iff. split.
      + apply negb_true_iff, bool_decide_eq_false.
        intros [Hin|Hin]%elem_of_app; [|revert Hin; compute_done].
        apply Hsl. rewrite Hn. apply elem_of_app. by right.
      + simpl. rewrite bool_decide_false; [done|]. by destruct t. }
  destruct (with_suffix_Ok _ _ Hv Hp) as [bak Hbak]. exists bak. split_and!; [done| |].
  - eapply (suffix_with_suffix _ _ _ (chars (Path.suffix p)) "bak"); [done| |done|compute_done].
    by rewrite chars_app.
  - eapply with_suffix_dotted; [done|]. by destruct (Path.suffix p).
Qed.

(** ** Filesystem calls under [wp] *)

Lemma wp_open_read p w (Q : outcome (list string) → World → list event → Prop) :
  (∀ c, w !! p = Some (File c) → Q (Ok (readlines c)) w []) →
  (¬ is_regular (w !! p) → Q (Raise (open_error p (w !! p))) w []) →
  wp (open_read p) w Q.
Proof.
  intros H1 H2. unfold wp, open_read.
  destruct (w !! p) as [[c| |]|] eqn:E; simpl; [by apply H1|..];
    apply H2; by intros [? [=]].
Qed.

Lemma wp_open_append p s c w (Q : outcome unit → World → list event → Prop) :
  w !! p = Some (File c) →
  Q (Ok tt) (<[p := File (c +:+ s)]> w) [] →
  wp (open_append p s) w Q.
Proof. intros E H. unfold wp, open_append. by rewrite E. Qed.

Lemma wp_MediaInfo_parse env p w (Q : outcome (list Track) → World → list event → Prop) :
  (∀ c, w !! p = Some (File c) → Q (Ok (mediainfo env c)) w [Probed p]) →
  (¬ is_regular (w !! p) → Q (Raise (probe_error p (w !! p))) w [Probed p]) →
  wp (MediaInfo_parse env p) w Q.
Proof.
  intros H1 H2. unfold wp, MediaInfo_parse.
  destruct (w !! p) as [[c| |]|] eqn:E; simpl; [by apply H1|..];
    apply H2; by intros [? [=]].
Qed.

Lemma wp_unlink p w (Q : outcome unit → World → list event → Prop) :
  (w !! p = Some Dir → Q (Raise (IsADirectoryError p)) w []) →
  (w !! p ≠ Some Dir → is_Some (w !! p) → Q (Ok tt) (delete p w) []) →
  (w !! p = None → Q (Raise (FileNotFoundError p)) w []) →
  wp (unlink p) w Q.
Proof.
  intros H1 H2 H3. unfold wp, unlink.
  destruct (w !! p) as [[c| |]|] eqn:E; simpl; eauto.
Qed.

Lemma wp_replace src dst w (Q : outcome unit → World → list event → Prop) :
  (w !! src = None → Q (Raise (FileNotFoundError src)) w []) →
  (is_Some (w !! src) → w !! dst = Some Dir → Q (Raise (IsADirectoryError dst)) w []) →
  (∀ n, w !! src = Some n → w !! dst ≠ Some Dir →
        Q (Ok tt) (<[dst := n]> (delete src w)) []) →
  wp (replace src dst) w Q.
Proof.
  intros H1 H2 H3. unfold wp, replace.
  destruct (w !! src) as [n|] eqn:E; simpl; [|by apply H1].
  destruct (w !! dst) as [[c| |]|] eqn:E'; simpl; eauto; by apply H3.
Qed.

(** ** [process_file] takes one of the steps *)

Ltac ev_solve :=
  simpl; try done;
  repeat first [ done | apply list_elem_of_here | apply list_elem_of_further ].

Lemma finish_sound env w1 p dst L v a :
  w1 !! processed_files_path env = Some (File L) →
  is_Some (w1 !! p) → Path.suffix p ≠ "" → dotted dst →
  wp (try_except_ffmpeg
        (ffmpeg_run env (Transcode p dst v a "copy") true ;;
         on_success p dst (processed_files_path env))%py
        (λ stderr, line <- decode stderr ;; print_err line ;; on_failure p dst)%py) w1
     (finish env w1 p dst L (Transcode p dst v a "copy")).
Proof.
  intros HL [n0 Hp] Hsuf Hdst.
  destruct (backup_path p Hsuf) as (bak & Hbak & _ & Hbakd).
  assert (processed_files_path env ≠ p) as HLp by (by apply dotted_not_ledger, suffix_dotted).
  assert (processed_files_path env ≠ dst) as HLd by (by apply dotted_not_ledger).
  assert (processed_files_path env ≠ bak) as HLb by (by apply dotted_not_ledger).
  wp_step. wp_step. apply wp_ffmpeg_run; cbn [cmd_output].
  - (* the transcode succeeded *)
    intros output Hrun. unfold on_success. rewrite Hbak.
    do 4 wp_step. wp_step. wp_step. wp_step.
    assert (is_Some (<[dst:=File output]> w1 !! p)) as [n Hn].
    { destruct (decide (dst = p)) as [->|]; [rewrite lookup_insert_eq | rewrite lookup_insert_ne];
        by eauto. }
    apply wp_replace.
    + intros E. by rewrite E in Hn.
    + intros _ Hdir. by eapply finish_backup_refused.
    + intros n' Hn' Hdir. rewrite Hn in Hn'. injection Hn' as <-.
      unfold mark_as_good. eapply wp_open_append.
      * rewrite lookup_insert_ne, lookup_delete_ne, lookup_insert_ne by done. exact HL.
      * by eapply finish_done.
  - (* the transcode failed and wrote nothing *)
    intros stderr Hrun. unfold on_failure. cbn [captured].
    do 2 wp_step. do 4 wp_step. wp_step. wp_step.
    case_bool_decide as Hex.
    + wp_step. wp_step. apply wp_unlink.
      * intros Hdir. eapply finish_unlink_refused; eauto; ev_solve.
      * intros Hdir _. eapply (finish_failed _ _ _ _ _ _ stderr None); eauto; ev_solve.
      * intros E. rewrite E in Hex. by destruct Hex.
    + wp_step. apply eq_None_not_Some in Hex.
      rewrite <- (delete_id w1 dst) at 2 by done.
      eapply (finish_failed _ _ _ _ _ _ stderr None); eauto; ev_solve.
      by rewrite Hex.
  - (* the transcode failed and left a partial output *)
    intros stderr output Hrun. unfold on_failure. cbn [captured].
    do 2 wp_step. do 4 wp_step. wp_step. wp_step.
    rewrite bool_decide_true by (rewrite lookup_insert_eq; eauto).
    wp_step. wp_step. apply wp_unlink.
    + rewrite lookup_insert_eq. done.
    + intros Hdir _. eapply (finish_failed _ _ _ _ _ _ stderr (Some output)); eauto; ev_solve.
    + rewrite lookup_insert_eq. done.
Qed.

Lemma destination_dotted p g ov dst :
  Path.with_suffix p ("." +:+ destination_gformat g ov (Path.suffix p)) = Ok dst →
  dotted dst.
Proof. intros H. by eapply with_suffix_dotted. Qed.

Lemma first_track_Raise role ts e : first_track role ts = Raise e → e = StopIteration.
Proof.
  unfold first_track, next_filter. destruct (List.find _ ts); [done|]. by intros [= <-].
Qed.

Lemma media_step_no_subtitles env w1 p ov o w' e :
  media_step env w1 p ov o w' e → subtitle_runs e = [].
Proof. by destruct 1. Qed.

Lemma file_step_sound env p ov w :
  wp (process_file env p ov) w (file_step env w p ov).
Proof.
  unfold process_file. do 2 (wp_step; wp_step).
  fold (supported_extension p).
  destruct (supported_extension p) eqn:Hext; cbn [negb].
  2:{ wp_step. by apply fs_not_video. }
  pose proof (supported_extension_suffix p Hext) as Hsuf.
  pose proof (suffix_dotted p Hsuf) as Hpd.
  destruct (process_subtitle_file_spec env p w Hsuf) as (vtt & Hvtt & Hsub).
  pose proof (with_suffix_dotted _ _ _ Hvtt ltac:(done)) as Hvd.
  assert (vtt ≠ p) as Hvp.
  { intros ->. pose proof (suffix_with_suffix _ _ _ [] "vtt" Hvtt eq_refl ltac:(done)
      ltac:(compute_done)) as E.
    unfold supported_extension in Hext. rewrite E in Hext. by vm_compute in Hext. }
  wp_step. eapply wp_mono_res; [exact Hsub|].
  intros o w1 e1 Hout Hrun (Hw1 & Ht1 & Hp1 & Hruns).
  destruct o as [[]|err].
  2:{ destruct Hruns as [-> [cmd Hcmd]].
      eapply (fs_subtitle_failed _ _ _ _ vtt); eauto. }
  assert (w1 !! p = w !! p) as Hw1p.
  { destruct Hw1 as [->|(_ & c & ->)]; [done|]. by rewrite lookup_insert_ne. }
  assert (w1 !! processed_files_path env = w !! processed_files_path env) as Hw1L.
  { destruct Hw1 as [->|(_ & c & ->)]; [done|]. rewrite lookup_insert_ne; [done|].
    intros ->. by apply (processed_files_not_dotted env). }
  eapply wp_mono with (Q := media_step env w1 p ov).
  2:{ intros o w' e2 Hstep. eapply (fs_media _ _ _ _ vtt w1 o w' e2); eauto.
      - rewrite !transcodes_app, Ht1. done.
      - rewrite !probes_app, Hp1. done.
      - intros ev Hev. rewrite !elem_of_app. auto.
      - rewrite !subtitle_runs_app, (media_step_no_subtitles _ _ _ _ _ _ _ Hstep).
        simpl. by rewrite app_nil_r. }
  clear Hsub Hout Hrun Hw1 Hw1p Hw1L Ht1 Hp1 Hruns e1 w.
  wp_step. apply wp_open_read.
  2:{ intros Hreg. by apply ms_ledger_unreadable. }
  intros L HL. fold (in_ledger p L).
  destruct (in_ledger p L) eqn:Hhit.
  { wp_step. by eapply ms_ledger_hit. }
  wp_step. apply wp_MediaInfo_parse.
  2:{ intros Hreg. by eapply ms_probe_refused. }
  intros c Hc. wp_step. wp_step.
  fold (first_track "General" (mediainfo env c)).
  fold (first_track "Video" (mediainfo env c)).
  fold (first_track "Audio" (mediainfo env c)).
  destruct (first_track "General" (mediainfo env c)) as [g|eg] eqn:Hg.
  2:{ rewrite (first_track_Raise _ _ _ Hg).
      eapply ms_missing_track; eauto. unfold missing_track. by rewrite Hg. }
  unfold truthy. case_bool_decide as Hfmt; cbn [negb].
  { wp_step. eapply ms_unreadable; eauto. ev_solve. }
  do 2 wp_step. wp_step. wp_step.
  destruct (first_track "Video" (mediainfo env c)) as [v|ev] eqn:Hv.
  2:{ rewrite (first_track_Raise _ _ _ Hv).
      eapply ms_missing_track; eauto. unfold missing_track. by rewrite Hg, Hv. }
  do 2 wp_step. wp_step. wp_step.
  destruct (first_track "Audio" (mediainfo env c)) as [a|ea] eqn:Ha.
  2:{ rewrite (first_track_Raise _ _ _ Ha).
      eapply ms_missing_track; eauto. unfold missing_track. by rewrite Hg, Hv, Ha. }
  do 2 wp_step.
  fold (compliant g v a ov (Path.suffix p)).
  fold (destination_gformat g ov (Path.suffix p)).
  destruct (compliant g v a ov (Path.suffix p)) eqn:Hcompl.
  { do 2 wp_step. unfold mark_as_good. eapply wp_open_append; [exact HL|].
    by eapply ms_compliant. }
  do 2 wp_step. wp_step. wp_step.
  destruct (Path.with_suffix p ("." +:+ destination_gformat g ov (Path.suffix p)))
    as [dst|err] eqn:Hdst.
  2:{ by eapply ms_bad_override. }
  eapply wp_mono.
  { apply (finish_sound env w1 p dst L); eauto. by eapply destination_dotted. }
  intros o w' e Hfin. eapply ms_transform; eauto.
  - rewrite !probes_app. simpl.
    by destruct Hfin as [???? _ _ _ _ _ -> _|??? _ _ _ _ -> _
                        |???? _ _ _ _ -> _ _ _|?? _ _ _ -> _ _ _].
  - intros line Hin. ev_solve.
  - rewrite !subtitle_runs_app. simpl.
    by destruct Hfin as [???? _ _ _ _ _ _ ->|??? _ _ _ _ _ ->
                        |???? _ _ _ _ _ _ -> _|?? _ _ _ _ _ -> _].
Qed.

Lemma process_file_step env p ov w :
  file_step env w p ov (out (process_file env p ov w)) (post (process_file env p ov w))
    (evs (process_file env p ov w)).
Proof. apply file_step_sound. Qed.

(** A file that passes the extension test and the subtitle pass, is not a
    ledger hit and can be probed: what is left of the step relation. *)
Lemma file_step_probed env p ov w L c o w' e :
  supported_extension p = true →
  out (process_subtitle_file env p w) = Ok tt →
  w !! processed_files_path env = Some (File L) →
  in_ledger p L = false →
  w !! p = Some (File c) →
  file_step env w p ov o w' e →
  ∃ w1 e1,
    w1 = post (process_subtitle_file env p w) ∧
    w1 !! p = Some (File c) ∧ w1 !! processed_files_path env = Some (File L) ∧
    media_step env w1 p ov o w' e1 ∧
    transcodes e = transcodes e1 ∧ probes e = probes e1 ∧ (∀ ev, ev ∈ e1 → ev ∈ e).
Proof.
  intros Hext Hsub HL Hhit Hc Hstep.
  destruct Hstep as [e Hno _ _|vtt w1 o w' e1 e _ Hvtt Hrun Hw1 Hp HLw Hm Ht Hpr Hin
                    |vtt w' e _ _ _ _ _ _ Hfail].
  { by rewrite Hext in Hno. }
  2:{ by rewrite Hsub in Hfail. }
  exists w1, e1. rewrite Hp, HLw. by split_and!.
Qed.

Ltac same_file :=
  repeat match goal with
  | H1 : ?w !! ?p = Some (File ?a), H2 : ?w !! ?p = Some (File ?b) |- _ =>
      rewrite H1 in H2; injection H2 as <-
  | H1 : first_track ?r ?ts = Ok ?a, H2 : first_track ?r ?ts = Ok ?b |- _ =>
      rewrite H1 in H2; injection H2 as <-
  | H1 : first_track ?r ?ts = Ok ?a, H2 : first_track ?r ?ts = Raise _ |- _ =>
      by rewrite H1 in H2
  | H1 : in_ledger ?p ?L = false, H2 : in_ledger ?p ?L = true |- _ =>
      by rewrite H1 in H2
  | H1 : ?w !! ?p = Some (File ?a), H2 : ¬ is_regular (?w !! ?p) |- _ =>
      exfalso; apply H2; by eexists
  end.

Lemma suffix_no_slash p : slash ∉ chars (Path.suffix p).
Proof.
  rewrite suffix_chars. unfold Path.suffix_l.
  destruct (name_l_decomp (chars p)) as (d & _ & Hsl & _).
  destruct (name_suffix_spec (Path.name_l (chars p))) as [E|(stem & t & Hn & _ & _ & _ & E)];
    rewrite E; [apply not_elem_of_nil|].
  intros Hin. apply Hsl. rewrite Hn. apply elem_of_app. by right.
Qed.

Lemma output_gformat_cases gf ov ext :
  output_gformat_of gf ov ext = "ok"
  ∨ output_gformat_of gf ov ext = _DEFAULT_GFORMAT
  ∨ (ov = Some (output_gformat_of gf ov ext) ∧ output_gformat_of gf ov ext ≠ "").
Proof.
  unfold output_gformat_of. destruct (_ || _); [by left|].
  destruct ov as [s|]; simpl; [|by right; left].
  unfold truthy. case_bool_decide; simpl; [by right; left|]. by right; right.
Qed.

Lemma destination_valid p g ov :
  override_ok ov → Path.suffix p ≠ "" →
  ∃ dst, Path.with_suffix p ("." +:+ destination_gformat g ov (Path.suffix p)) = Ok dst.
Proof.
  intros Hov Hsuf. apply with_suffix_Ok; [|done].
  assert ((slash ∉ chars (destination_gformat g ov (Path.suffix p)))
          ∧ destination_gformat g ov (Path.suffix p) ≠ "") as [Hsl Hne].
  { unfold destination_gformat. case_bool_decide as Hok.
    - split; [apply suffix_no_slash | done].
    - destruct (output_gformat_cases (format g) ov (Path.suffix p)) as [E|[E|[E1 E2]]];
        [done | rewrite E; split; [compute_done | done] | split; [by apply Hov | done]]. }
  unfold Path.valid_suffix_l. rewrite chars_app. simpl.
  rewrite bool_decide_false.
  - simpl. rewrite bool_decide_false; [done|]. intros E. apply Hne, chars_inj. by rewrite E.
  - intros [?|?]%elem_of_cons; done.
Qed.

(** C10: a probed file (supported extension, subtitle pass returned, not
    in the ledger) whose General track has a
    format but which lacks a Video track or an Audio track is not skipped:
    [next(filter(...))] raises [StopIteration] out of [process_file]; only
    an empty General format is answered by the reported skip. *)
Theorem missing_video_or_audio_track_raises env p ov w L c g :
  supported_extension p = true →
  out (process_subtitle_file env p w) = Ok tt →
  w !! processed_files_path env = Some (File L) →
  in_ledger p L = false →
  w !! p = Some (File c) →
  first_track "General" (mediainfo env c) = Ok g →
  (format g ≠ "" →
   first_track "Video" (mediainfo env c) = Raise StopIteration
   ∨ first_track "Audio" (mediainfo env c) = Raise StopIteration →
   out (process_file env p ov w) = Raise StopIteration)
  ∧ (format g = "" →
     out (process_file env p ov w) = Ok tt
     ∧ Print "- error reading track info, skipping " ∈ evs (process_file env p ov w)).
Proof.
  intros Hext Hsub HL Hhit Hc Hg.
  destruct (file_step_probed env p ov w L c _ _ _ Hext Hsub HL Hhit Hc
              (process_file_step env p ov w))
    as (w1 & e1 & _ & Hc1 & HL1 & Hm & _ & _ & Hin).
  split.
  - intros Hfmt Hmiss. destruct Hm; same_file; try done; destruct Hmiss; same_file.
  - intros Hfmt. destruct Hm; same_file; try done.
    + exfalso.
      match goal with H : missing_track _ |- _ =>
        unfold missing_track in H; rewrite Hg in H; by destruct H end.
    + split; [done|]. by apply Hin.
Qed.

(** C8: for a file that reaches the decision (the subtitle pass has
    returned, the file is not in the ledger and its probe holds the three
    tracks), no transcode is invoked
    exactly when the decision is video copy, audio copy and container
    unchanged; then the path is appended to the ledger and the media file is
    left as it was; in every other case one transcode is invoked. *)
Theorem transcode_iff_not_compliant env p ov w L c g v a :
  supported_extension p = true →
  out (process_subtitle_file env p w) = Ok tt →
  w !! processed_files_path env = Some (File L) →
  in_ledger p L = false →
  w !! p = Some (File c) →
  first_track "General" (mediainfo env c) = Ok g →
  format g ≠ "" →
  first_track "Video" (mediainfo env c) = Ok v →
  first_track "Audio" (mediainfo env c) = Ok a →
  override_ok ov →
  (transcodes (evs (process_file env p ov w)) = []
   ↔ compliant g v a ov (Path.suffix p) = true)
  ∧ (compliant g v a ov (Path.suffix p) = true →
     out (process_file env p ov w) = Ok tt
     ∧ post (process_file env p ov w)
       = <[processed_files_path env := File (L +:+ p +:+ nl)]>
           (post (process_subtitle_file env p w))
     ∧ post (process_file env p ov w) !! p = Some (File c))
  ∧ (compliant g v a ov (Path.suffix p) = false →
     ∃ dst ok,
       Path.with_suffix p ("." +:+ destination_gformat g ov (Path.suffix p)) = Ok dst
       ∧ transcodes (evs (process_file env p ov w))
         = [(Transcode p dst (output_vcodec_of (format v))
               (output_acodec_of (format a) (channel_s a)) "copy", ok)]).
Proof.
  intros Hext Hsub HL Hhit Hc Hg Hfmt Hv Ha Hov.
  destruct (file_step_probed env p ov w L c _ _ _ Hext Hsub HL Hhit Hc
              (process_file_step env p ov w))
    as (w1 & e1 & Hw1 & Hc1 & HL1 & Hm & Ht & _ & _).
  pose proof (supported_extension_suffix p Hext) as Hsuf.
  destruct (destination_valid p g ov Hov Hsuf) as [dst0 Hdst0].
  assert (processed_files_path env ≠ p) as HLp by (by apply dotted_not_ledger, suffix_dotted).
  rewrite Ht, <- Hw1.
  destruct Hm as [| | | ? ? ? ? ? ? Hmiss| | | |L' c' g' v' a' dst o w' e2 e ? ? ? ? ? ? ? Hcompl Hdst Hfin Hte];
    same_file; try done.
  - unfold missing_track in Hmiss. rewrite Hg, Hv, Ha in Hmiss. tauto.
  - split_and!; [done | | by intros E; rewrite E in *].
    intros _. split_and!; [done..|]. by rewrite lookup_insert_ne.
  - congruence.
  - rewrite Hte. rewrite Hdst0 in Hdst. injection Hdst as <-.
    assert (∃ ok, transcodes e2 = [(Transcode p dst0 (output_vcodec_of (format v))
               (output_acodec_of (format a) (channel_s a)) "copy", ok)]) as [ok Hok].
    { destruct Hfin; eauto. }
    rewrite Hok. split_and!.
    + split; [done|]. intros E. by rewrite E in Hcompl.
    + intros E. by rewrite E in Hcompl.
    + intros _. by exists dst0, ok.
Qed.

Lemma missing_video_or_audio_track_raises_witness :
  out (process_file demo_env "/v/d.mp4" None demo_world) = Raise StopIteration
  ∧ out (process_file demo_env "/v/x.mp4" None (<["/v/x.mp4" := File "noise"]> demo_world)) = Ok tt.
Proof.
  split.
  - apply (missing_video_or_audio_track_raises demo_env "/v/d.mp4" None demo_world
             "" "mp4/aac" (track "General" "MPEG-4" 0)); try reflexivity.
    + done.
    + by left.
  - apply (missing_video_or_audio_track_raises demo_env "/v/x.mp4" None
             (<["/v/x.mp4" := File "noise"]> demo_world)
             "" "noise" (track "General" "" 0)); reflexivity.
Defined.

Lemma transcode_iff_not_compliant_witness :
  transcodes (evs (process_file demo_env "/v/a.mp4" None demo_world)) = []
  ∧ ∃ dst ok,
      transcodes (evs (process_file demo_env "/v/b.avi" None demo_world))
      = [(Transcode "/v/b.avi" dst "h264" "copy" "copy", ok)].
Proof.
  split.
  - apply (transcode_iff_not_compliant demo_env "/v/a.mp4" None demo_world
             "" "mp4/avc/aac" (track "General" "MPEG-4" 0) (track "Video" "AVC" 0)
             (track "Audio" "AAC" 2)); try reflexivity; done.
  - destruct (transcode_iff_not_compliant demo_env "/v/b.avi" None demo_world
             "" "avi/xvid/mp3" (track "General" "AVI" 0) (track "Video" "MPEG-4 Visual" 0)
             (track "Audio" "MPEG Audio" 2)) as (_ & _ & H); try reflexivity; try done.
    destruct (H eq_refl) as (dst & ok & _ & E). by exists dst, ok.
Defined.

(** ** The audio rule and the container override *)

(** C7: the audio stream is copied exactly when its codec is in the
    supported set and it is not AAC with more than two channels; AAC is
    copied up to two channels and re-encoded from three channels on. *)
Theorem audio_copy_iff (codec : string) (channels : Z) :
  (output_acodec_of codec channels = "copy" ↔ is_supported_acodec codec channels = true)
  ∧ (is_supported_acodec codec channels = true
     ↔ codec ∈ _SUPPORTED_ACODECS ∧ ¬ (codec = "AAC" ∧ channels > 2))
  ∧ is_supported_acodec "AAC" channels = bool_decide (channels ≤ 2).
Proof.
  split_and!.
  - unfold output_acodec_of. by destruct (is_supported_acodec codec channels).
  - unfold is_supported_acodec, str_in.
    rewrite andb_true_iff, negb_true_iff, andb_false_iff, !bool_decide_eq_false,
      bool_decide_eq_true.
    destruct (decide (codec = "AAC")); tauto.
  - unfold is_supported_acodec, str_in. simpl. rewrite andb_true_r.
    do 2 case_bool_decide; simpl; try done; lia.
Qed.

(** Line 95 as written: an override equal to [video_file.suffix], dot
    included, makes the output container ["ok"], the value a supported
    probed container gives without an override. *)
Lemma override_equal_to_suffix_is_unchanged (general_format extension : string) :
  output_gformat_of general_format (Some extension) extension = "ok"
  ∧ Forall (λ supported, output_gformat_of supported None extension = "ok")
      _SUPPORTED_GFORMATS
  ∧ ∀ g, destination_gformat g (Some extension) extension = extension.
Proof.
  assert (∀ gf, output_gformat_of gf (Some extension) extension = "ok") as H.
  { intros gf. unfold output_gformat_of. rewrite (bool_decide_true (_ = _)) by done.
    by rewrite orb_true_r. }
  split_and!; [apply H | by repeat constructor |].
  intros g. unfold destination_gformat. by rewrite H, bool_decide_true.
Qed.

(** The extension compared with the override is [video_file.suffix], dot
    included: an override written without the dot does not match it. *)
Example override_without_dot_does_not_match :
  output_gformat_of "AVI" (Some "mkv") (Path.suffix "/v/e.mkv") = "mkv".
Proof. reflexivity. Qed.

(** ** The command-line flags *)

(** C1 does not hold of the script: [--mkv] / [--mp4] are parsed but [main] is called with
    the paths alone and calls [process_file] without an override.  With
    [--mkv] on an AVI file the script transcodes to [.mp4]; forwarding the
    override would have produced [.mkv]. *)
Theorem flags_do_not_reach_process_file :
  (∀ env m1 m2 cfg paths w,
     script env {| mkv := m1; mp4 := m2; config := cfg; videofile := paths |} w
     = main env paths w)
  ∧ transcodes (evs (script demo_env
                       {| mkv := true; mp4 := false; config := None;
                          videofile := ["/v/b.avi"] |} demo_world))
    = [(Transcode "/v/b.avi" "/v/b.mp4" "h264" "copy" "copy", true)]
  ∧ transcodes (evs (process_file demo_env "/v/b.avi" (Some "mkv") demo_world))
    = [(Transcode "/v/b.avi" "/v/b.mkv" "h264" "copy" "copy", true)].
Proof. split_and!; [done | by vm_compute..]. Qed.

(** ** The destination of a transcode *)

(** When the container is left unchanged the destination is never the
    source: the suffix handed to [with_suffix] is ["."] followed by the old
    suffix, one character longer than what it replaces. *)
Lemma destination_differs_when_unchanged p g ov dst :
  output_gformat_of (format g) ov (Path.suffix p) = "ok" →
  Path.with_suffix p ("." +:+ destination_gformat g ov (Path.suffix p)) = Ok dst →
  dst ≠ p.
Proof.
  intros Hok Hdst ->. apply with_suffix_length in Hdst.
  unfold destination_gformat in Hdst. rewrite bool_decide_true in Hdst by done.
  rewrite chars_app in Hdst. rewrite length_app in Hdst. simpl in Hdst. lia.
Qed.

(** C3 does not hold of the script: an [.mp4] file whose probed container is not supported
    gets the default container [mp4], and [with_suffix] then returns the
    source path itself: the transcode is invoked with destination equal to
    source. *)
Theorem destination_equals_source_at_c_mp4 :
  Path.with_suffix "/v/c.mp4"
    ("." +:+ destination_gformat (track "General" "AVI" 0) None (Path.suffix "/v/c.mp4"))
  = Ok "/v/c.mp4"
  ∧ transcodes (evs (process_file demo_env "/v/c.mp4" None demo_world))
    = [(Transcode "/v/c.mp4" "/v/c.mp4" "h264" "copy" "copy", false)].
Proof. split; by vm_compute. Qed.

(** ** A failed transcode *)

(** After a failed transcode whose destination is not the source (and not
    a directory), the destination is absent, the source and the ledger are
    what they were. *)
Lemma failed_transcode_cleanup env w1 p dst L cmd stderr partial o w' e :
  finish env w1 p dst L cmd o w' e →
  ffmpeg env w1 cmd = Failed stderr partial →
  dst ≠ p → dotted dst → o = Ok tt →
  w' !! dst = None ∧ w' !! p = w1 !! p
  ∧ w' !! processed_files_path env = w1 !! processed_files_path env.
Proof.
  intros Hfin Hrun Hne Hd Ho.
  assert (processed_files_path env ≠ dst) as HLd by (by apply dotted_not_ledger).
  destruct Hfin as [? ? ? ? E|? ? ? E|s part w2 e E -> Hdir _ _ _|]; try congruence.
  rewrite lookup_delete_eq, !lookup_delete_ne by done.
  split_and!; [done|..]; destruct part; by rewrite ?lookup_insert_ne.
Qed.

(** C4 does not hold of the script: at the input of C3 the transcode fails, [on_failure]
    finds the "destination" present and unlinks it: the original source
    file is gone. *)
Theorem failed_transcode_deletes_source_at_c_mp4 :
  demo_world !! "/v/c.mp4" = Some (File "avi/xvid/mp3")
  ∧ out (process_file demo_env "/v/c.mp4" None demo_world) = Ok tt
  ∧ transcodes (evs (process_file demo_env "/v/c.mp4" None demo_world))
    = [(Transcode "/v/c.mp4" "/v/c.mp4" "h264" "copy" "copy", false)]
  ∧ post (process_file demo_env "/v/c.mp4" None demo_world) !! "/v/c.mp4" = None.
Proof. split_and!; by vm_compute. Qed.

(** ** The ledger file *)


(** C5 does not hold of the script: with the ledger file absent the first ledger operation
    is the membership scan, which opens the file for reading and raises
    [FileNotFoundError]; the file is not created.  The append of
    [mark_as_good], opened in mode ['a'], would have created it. *)
Theorem absent_ledger_is_not_created :
  demo_files !! demo_ledger = None
  ∧ out (process_file demo_env "/v/a.mp4" None demo_files)
    = Raise (FileNotFoundError demo_ledger)
  ∧ post (process_file demo_env "/v/a.mp4" None demo_files) !! demo_ledger = None
  ∧ post (mark_as_good "/v/a.mp4" demo_ledger demo_files) !! demo_ledger
    = Some (File ("/v/a.mp4" +:+ nl)).
Proof. split_and!; by vm_compute. Qed.

(** ** The ledger text *)

Lemma universal_newlines_plain b x rest :
  LF ∉ x → CR ∉ x → x ≠ [] →
  universal_newlines_from b (x ++ rest) = x ++ universal_newlines_from false rest.
Proof.
  intros HLF HCR Hx. destruct x as [|c x]; [done|]. clear Hx.
  revert b c HLF HCR. induction x as [|d x IH]; intros b c HLF HCR.
  - cbn [app universal_newlines_from].
    rewrite decide_False by (intros ->; apply HCR; by left).
    rewrite decide_False by (intros ->; apply HLF; by left). done.
  - change ((c :: d :: x) ++ rest) with (c :: ((d :: x) ++ rest)).
    cbn [universal_newlines_from].
    rewrite decide_False by (intros ->; apply HCR; by left).
    rewrite decide_False by (intros ->; apply HLF; by left).
    rewrite IH; [done | |]; intros Hin; [apply HLF | apply HCR]; by right.
Qed.

Lemma universal_newlines_app b l x :
  LF ∉ x → CR ∉ x → x ≠ [] →
  universal_newlines_from b (l ++ x ++ [LF]) = universal_newlines_from b l ++ x ++ [LF].
Proof.
  intros HLF HCR Hx. revert b. induction l as [|c l IH]; intros b.
  - cbn [app]. by rewrite universal_newlines_plain.
  - cbn [app universal_newlines_from].
    repeat case_decide; try destruct b; cbn [app]; by rewrite ?IH.
Qed.

Lemma split_keepends_line cur x :
  LF ∉ x → split_keepends cur (x ++ [LF]) = [text (rev cur ++ x ++ [LF])].
Proof.
  revert cur. induction x as [|c x IH]; intros cur Hx; cbn [app split_keepends].
  - rewrite decide_True by done. done.
  - rewrite decide_False by (intros ->; apply Hx; by left).
    rewrite IH by (intros Hin; apply Hx; by right).
    cbn [rev]. by rewrite <- app_assoc.
Qed.

Lemma split_keepends_app cur a b :
  split_keepends cur ((a ++ [LF]) ++ b) = split_keepends cur (a ++ [LF]) ++ split_keepends [] b.
Proof.
  revert cur. induction a as [|c a IH]; intros cur; cbn [app split_keepends].
  - rewrite decide_True by done. done.
  - case_decide; by rewrite IH.
Qed.

Lemma readlines_append L x :
  complete_lines L → nl_free x → x ≠ "" →
  readlines (L +:+ x +:+ nl) = readlines L ++ [x +:+ nl].
Proof.
  intros HL [HLF HCR] Hx. unfold readlines, complete_lines, universal_newlines in *.
  rewrite !chars_app. change (chars nl) with [LF].
  assert (chars x ≠ []) as Hx' by (intros E; apply Hx, chars_inj; by rewrite E).
  rewrite universal_newlines_app by done.
  assert (split_keepends [] (chars x ++ [LF]) = [x +:+ nl]) as Hline.
  { rewrite split_keepends_line by done. simpl. by rewrite text_app, text_chars. }
  destruct HL as [->|[a ->]].
  - simpl. exact Hline.
  - by rewrite split_keepends_app, Hline.
Qed.




(** ** Paths made by the script keep out of each other's way *)











(** ** What a returning call of [process_file] preserves *)

Section Advances.

Variable env : Env.










End Advances.


Section Advances_finish.

Variable env : Env.


End Advances_finish.


Section One_file.

Variable env : Env.


End One_file.

(** ** Loops with an invariant over the elements done and the events so far *)

(** A postcondition that every iteration re-establishes from its [Ok]
    case holds when the loop ends, whether it returns or raises. *)
Lemma wp_for_each_post {A} (l : list A) (body : A → M unit)
    (P : outcome unit → World → list event → Prop) w e0 :
  P (Ok tt) w e0 →
  (∀ x w0 e1, x ∈ l → P (Ok tt) w0 e1 → wp (body x) w0 (λ o w' e, P o w' (e1 ++ e))) →
  wp (for_each l body) w (λ o w' e, P o w' (e0 ++ e)).
Proof.
  revert w e0. induction l as [|x l IH]; intros w e0 HP Hbody; simpl.
  - wp_step. by rewrite app_nil_r.
  - wp_step. eapply wp_mono; [apply (Hbody x w e0); [by left | done]|].
    intros [[]|err] w1 e1 H1; [|done].
    eapply wp_mono; [apply (IH w1 (e0 ++ e1)); [done|]|].
    + intros y w0 e2 Hy. apply Hbody. by right.
    + intros o w2 e2 H2. simpl in H2. by rewrite app_assoc.
Qed.




(** ** The first run *)

Section First_run.

Variable env : Env.
Hypothesis listing_perm : ∀ l, listing env l ≡ₚ l.

Lemma elem_of_children (w : World) d q :
  q ∈ listing env (filter (λ q, child_of d q = true) (elements (dom w)))
  ↔ is_Some (w !! q) ∧ child_of d q = true.
Proof.
  rewrite (listing_perm _), list_elem_of_filter, elem_of_elements, elem_of_dom. tauto.
Qed.










End First_run.

(** ** The second run *)


Section Second_run_facts.

Variable env : Env.
Hypothesis listing_perm : ∀ l, listing env l ≡ₚ l.








End Second_run_facts.

(** ** Running the batch twice *)

(** X21: a file whose path is a line of the ledger (the ledger being a
    text file) is skipped before the probe: nothing is probed or
    transcoded, and the call ends as the subtitle pass, which runs before
    the ledger is read, has ended: with its outcome and the filesystem it
    left.  So the call returns when the subtitle pass returned. *)
Lemma ledger_hit_skips_before_probe env p ov w L :
  supported_extension p = true →
  w !! processed_files_path env = Some (File L) → in_ledger p L = true →
  out (process_file env p ov w) = out (process_subtitle_file env p w)
  ∧ probes (evs (process_file env p ov w)) = []
  ∧ transcodes (evs (process_file env p ov w)) = []
  ∧ post (process_file env p ov w) = post (process_subtitle_file env p w).
Proof.
  intros Hext HL Hhit. pose proof (process_file_step env p ov w) as Hstep.
  destruct Hstep as [e Hno _ _|vtt w1 o w' e1 e _ Hvtt Hrun Hw1 Hp HLw Hm Ht Hpr Hin Hsub _
                    |vtt w' e _ Hvtt Hrun Hw' Ht Hpr Hsub _].
  { by rewrite Hext in Hno. }
  - rewrite HL in HLw. rewrite Hsub, Ht, Hpr, <- Hrun.
    destruct Hm; same_file; try congruence; done.
  - by rewrite Hsub, Ht, Hpr.
Qed.




(** The side conditions of the second run are needed: a compliant file whose
    path holds a line break is written to the ledger as two lines, is not
    recognised by the scan of the second run, and is probed and appended
    again. *)
Lemma path_with_line_break_is_marked_again :
  let p := "/v/a" +:+ nl +:+ "b.mp4" in
  let w := <[p := File "mp4/avc/aac"]> (<[demo_ledger := File ""]> ∅) in
  post (main demo_env [p] w) !! demo_ledger = Some (File (p +:+ nl))
  ∧ probes (evs (main demo_env [p] (post (main demo_env [p] w)))) = [p]
  ∧ post (main demo_env [p] (post (main demo_env [p] w))) !! demo_ledger
    = Some (File (p +:+ nl +:+ p +:+ nl)).
Proof. split_and!; by vm_compute. Qed.

(** * Further properties of the script *)

(** ** The extension test *)

Lemma filter_ne_id (c : ascii) (t : list ascii) : c ∉ t → filter (λ x, x ≠ c) t = t.
Proof.
  induction t as [|x t IH]; intros Hc; [done|].
  rewrite filter_cons_True by (intros ->; apply Hc; by left).
  f_equal. apply IH. intros Hin. apply Hc. by right.
Qed.

Lemma suffix_shape p :
  Path.suffix p = "" ∨ ∃ t, Path.suffix p = "." +:+ t ∧ t ≠ "" ∧ (dot ∉ chars t).
Proof.
  unfold Path.suffix, Path.suffix_l.
  destruct (name_suffix_spec (Path.name_l (chars p))) as [E|(stem & t & _ & _ & Ht & Hdot & E)];
    rewrite E; [by left|right].
  exists (text t). rewrite chars_text. split_and!; [done| |done].
  intros E'. apply Ht. apply text_inj. by rewrite E'.
Qed.

Lemma remove_dot_of_suffix t : dot ∉ chars t → remove_char "." ("." +:+ t) = t.
Proof.
  intros Hdot. unfold remove_char. rewrite chars_app. simpl.
  rewrite filter_cons_False by (intros H; by apply H).
  by rewrite filter_ne_id, text_chars.
Qed.

(** X1: the extension test accepts exactly the paths whose suffix is a dot
    followed by one of the eleven listed extensions, letter case included. *)
Theorem supported_extension_iff (p : string) :
  supported_extension p = true
  ↔ ∃ ext, ext ∈ _SUPPORTED_EXTENSIONS ∧ Path.suffix p = "." +:+ ext.
Proof.
  unfold supported_extension, str_in. rewrite bool_decide_eq_true. split.
  - intros Hin. destruct (suffix_shape p) as [E|(t & E & _ & Hdot)].
    + rewrite E in Hin. exfalso. revert Hin. compute_done.
    + rewrite E, remove_dot_of_suffix in Hin by done. by exists t.
  - intros (ext & Hin & E). rewrite E.
    assert (dot ∉ chars ext) as Hdot.
    { unfold _SUPPORTED_EXTENSIONS in Hin.
      repeat (apply elem_of_cons in Hin as [->|Hin]; [compute_done|]).
      by apply elem_of_nil in Hin. }
    by rewrite remove_dot_of_suffix.
Qed.

Example upper_case_extension_is_not_supported : supported_extension "/v/A.MKV" = false.
Proof. reflexivity. Qed.

(** X2: a file whose extension is not supported is left alone: the call
    prints its three lines and returns with the filesystem as it was, before
    any subtitle conversion, ledger access or probe (so also when the ledger
    file is missing). *)
Theorem unsupported_extension_is_skipped env p ov w :
  supported_extension p = false →
  process_file env p ov w
  = Res (Ok tt) w
      [Print "==========="; Print ("Processing: " +:+ p);
       Print ("- not a video format, skipping " +:+ Path.suffix p)].
Proof.
  intros H. unfold process_file, bind, print, emit. simpl.
  fold (supported_extension p). by rewrite H.
Qed.

Lemma unsupported_extension_is_skipped_witness :
  out (process_file demo_env "/v/readme.txt" None demo_files) = Ok tt
  ∧ post (process_file demo_env "/v/readme.txt" None demo_files) = demo_files.
Proof.
  rewrite (unsupported_extension_is_skipped demo_env "/v/readme.txt" None demo_files);
    [by split | reflexivity].
Defined.

(** ** The decision *)

Lemma output_vcodec_copy f : output_vcodec_of f = "copy" ↔ f = "AVC".
Proof.
  unfold output_vcodec_of, str_in, _SUPPORTED_VCODECS. case_bool_decide as H.
  - apply list_elem_of_singleton in H. by split.
  - split; [done|]. intros ->. exfalso. apply H. by left.
Qed.

Lemma output_acodec_copy f ch :
  output_acodec_of f ch = "copy"
  ↔ f ∈ _SUPPORTED_ACODECS ∧ ¬ (f = "AAC" ∧ ch > 2).
Proof.
  unfold output_acodec_of, is_supported_acodec, str_in.
  destruct (negb _ && _) eqn:E.
  - split; [intros _|done].
    apply andb_true_iff in E as [E1 E2]. apply bool_decide_eq_true in E2.
    apply negb_true_iff, andb_false_iff in E1. rewrite !bool_decide_eq_false in E1. tauto.
  - split; [done|]. intros [H1 H2]. exfalso.
    apply andb_false_iff in E as [E|E].
    + apply negb_false_iff, andb_true_iff in E as [E1 E2].
      apply bool_decide_eq_true in E1, E2. tauto.
    + by apply bool_decide_eq_false in E.
Qed.

Lemma output_gformat_ok gf ov ext :
  output_gformat_of gf ov ext = "ok"
  ↔ (gf ∈ _SUPPORTED_GFORMATS ∧ truthy_opt ov = false) ∨ ov = Some ext ∨ ov = Some "ok".
Proof.
  unfold output_gformat_of, str_in.
  destruct (bool_decide (gf ∈ _SUPPORTED_GFORMATS)) eqn:E1;
    [apply bool_decide_eq_true in E1 | apply bool_decide_eq_false in E1];
  destruct (bool_decide (ov = Some ext)) eqn:E2;
    [apply bool_decide_eq_true in E2 | apply bool_decide_eq_false in E2
    |apply bool_decide_eq_true in E2 | apply bool_decide_eq_false in E2];
  destruct ov as [o|]; simpl; unfold truthy;
  try (destruct (bool_decide (o = "")) eqn:E3;
       [apply bool_decide_eq_true in E3 | apply bool_decide_eq_false in E3]);
  simpl; unfold _DEFAULT_GFORMAT; split; try tauto; try done;
  try (intros ->; tauto); try (intros [[? ?]|[?|[= ?]]]; try done; try congruence).
Qed.

(** X3: a file needs no transcode exactly when its video codec is AVC, its
    audio codec is supported (and is not AAC with more than two channels),
    and either the probed container is supported with no override, or the
    override is the suffix of the file, or the override is the string
    ["ok"], which the code cannot tell from its own marker. *)
Theorem compliant_iff g v a ov ext :
  compliant g v a ov ext = true
  ↔ format v = "AVC"
    ∧ (format a ∈ _SUPPORTED_ACODECS ∧ ¬ (format a = "AAC" ∧ channel_s a > 2))
    ∧ ((format g ∈ _SUPPORTED_GFORMATS ∧ truthy_opt ov = false)
       ∨ ov = Some ext ∨ ov = Some "ok").
Proof.
  unfold compliant. rewrite !andb_true_iff, !bool_decide_eq_true.
  rewrite output_vcodec_copy, output_acodec_copy, output_gformat_ok. tauto.
Qed.

(** ** Destination and backup paths *)

Lemma with_suffix_same p s q :
  Path.with_suffix p s = Ok q → (q = p ↔ s = Path.suffix p).
Proof.
  intros Hq. apply with_suffix_Ok_inv in Hq.
  apply with_suffix_l_Some in Hq as (d & stem & Ep & Eq & _).
  split.
  - intros ->. rewrite Ep in Eq at 1. apply app_inv_head, app_inv_head in Eq.
    apply chars_inj. by rewrite suffix_chars.
  - intros ->. apply chars_inj. rewrite Eq, suffix_chars. by rewrite <- Ep.
Qed.

Lemma backup_is_append p :
  Path.suffix p ≠ "" →
  Path.with_suffix p (Path.suffix p +:+ ".bak") = Ok (p +:+ ".bak").
Proof.
  intros Hsuf. destruct (backup_path p Hsuf) as (bak & Hbak & _). rewrite Hbak.
  f_equal. apply chars_inj. pose proof Hbak as Hl. apply with_suffix_Ok_inv in Hl.
  apply with_suffix_l_Some in Hl as (d & stem & Ep & Eq & _).
  rewrite Eq, !chars_app, suffix_chars. rewrite Ep at 2. by rewrite <- !app_assoc.
Qed.

(** X4: without an override, the destination of the transcode is the
    source path itself exactly when the probed container is not supported
    and the file already has the suffix [.mp4]. *)
Theorem destination_is_source_iff p g dst :
  Path.with_suffix p ("." +:+ destination_gformat g None (Path.suffix p)) = Ok dst →
  (dst = p ↔ (format g ∉ _SUPPORTED_GFORMATS) ∧ Path.suffix p = ".mp4").
Proof.
  intros Hdst. rewrite (with_suffix_same _ _ _ Hdst).
  unfold destination_gformat, output_gformat_of, str_in. simpl.
  rewrite orb_false_r, andb_true_r.
  destruct (decide (format g ∈ _SUPPORTED_GFORMATS)) as [Hg|Hg].
  - rewrite (bool_decide_true _ Hg). simpl. split; [|tauto]. intros E. exfalso.
    apply (f_equal (λ x, length (chars x))) in E. rewrite chars_app, length_app in E.
    simpl in E. lia.
  - rewrite (bool_decide_false _ Hg). simpl. split; [by intros <-|by intros [_ ->]].
Qed.

Lemma destination_is_source_iff_witness :
  "/v/c.mp4" = "/v/c.mp4"
  ↔ (format (track "General" "AVI" 0) ∉ _SUPPORTED_GFORMATS)
    ∧ Path.suffix "/v/c.mp4" = ".mp4".
Proof.
  apply (destination_is_source_iff "/v/c.mp4" (track "General" "AVI" 0) "/v/c.mp4").
  reflexivity.
Defined.

Lemma destination_not_backup p g dst :
  Path.suffix p ≠ "" →
  Path.with_suffix p ("." +:+ destination_gformat g None (Path.suffix p)) = Ok dst →
  dst ≠ p +:+ ".bak".
Proof.
  intros Hsuf Hdst ->. apply with_suffix_length in Hdst.
  rewrite !chars_app, !length_app in Hdst. simpl in Hdst.
  assert (length (chars (Path.suffix p)) ≠ 0)%nat as Hn.
  { intros E. apply Hsuf. apply chars_inj. by destruct (chars (Path.suffix p)). }
  unfold destination_gformat in Hdst. case_bool_decide as Hok; [lia|].
  destruct (output_gformat_cases (format g) None (Path.suffix p)) as [E|[E|[E _]]];
    [done | | done].
  rewrite E in Hdst. simpl in Hdst. lia.
Qed.

(** ** What a transcode leaves behind *)

(** X5: when a file reaches the transcode (the subtitle pass has
    returned) and the transcode succeeds (destination other than the
    source, no directory at the backup name), the call returns; the
    original is no longer at its path but at [path + ".bak"] with its
    content, the destination holds the output, and the line appended to the
    ledger is the destination path. *)
Theorem successful_transcode_effects env p w L c g v a dst output :
  supported_extension p = true →
  out (process_subtitle_file env p w) = Ok tt →
  w !! processed_files_path env = Some (File L) →
  in_ledger p L = false →
  w !! p = Some (File c) →
  first_track "General" (mediainfo env c) = Ok g →
  format g ≠ "" →
  first_track "Video" (mediainfo env c) = Ok v →
  first_track "Audio" (mediainfo env c) = Ok a →
  compliant g v a None (Path.suffix p) = false →
  Path.with_suffix p ("." +:+ destination_gformat g None (Path.suffix p)) = Ok dst →
  dst ≠ p →
  ffmpeg env (post (process_subtitle_file env p w))
    (Transcode p dst (output_vcodec_of (format v))
       (output_acodec_of (format a) (channel_s a)) "copy") = Done output →
  post (process_subtitle_file env p w) !! (p +:+ ".bak") ≠ Some Dir →
  out (process_file env p None w) = Ok tt
  ∧ post (process_file env p None w) !! p = None
  ∧ post (process_file env p None w) !! (p +:+ ".bak") = Some (File c)
  ∧ post (process_file env p None w) !! dst = Some (File output)
  ∧ post (process_file env p None w) !! processed_files_path env
    = Some (File (L +:+ dst +:+ nl)).
Proof.
  intros Hext Hsub HL Hhit Hc Hg Hfmt Hv Ha Hcompl Hdst Hne Hrun Hbakdir.
  destruct (file_step_probed env p None w L c _ _ _ Hext Hsub HL Hhit Hc
              (process_file_step env p None w))
    as (w1 & e1 & Hw1 & Hc1 & HL1 & Hm & _).
  rewrite <- Hw1 in Hrun, Hbakdir.
  pose proof (supported_extension_suffix p Hext) as Hsuf.
  pose proof (backup_is_append p Hsuf) as Hbak.
  pose proof (destination_not_backup p g dst Hsuf Hdst) as Hdb.
  pose proof (destination_dotted _ _ _ _ Hdst) as Hdd.
  assert (processed_files_path env ≠ dst) as HLd by (by apply dotted_not_ledger).
  assert (processed_files_path env ≠ p) as HLp by (by apply dotted_not_ledger, suffix_dotted).
  assert (processed_files_path env ≠ p +:+ ".bak") as HLb.
  { apply dotted_not_ledger. eapply with_suffix_dotted; [exact Hbak|].
    by destruct (Path.suffix p). }
  assert (p +:+ ".bak" ≠ p) as Hbp.
  { intros E. apply (f_equal (λ x, length (chars x))) in E.
    rewrite chars_app, length_app in E. simpl in E. lia. }
  destruct Hm as [| | | ? ? ? ? ? ? Hmiss| | | |L' c' g' v' a' dst' o w' e2 e ? ? ? ? ? ? ? ? Hdst' Hfin];
    same_file; try congruence.
  - unfold missing_track in Hmiss. rewrite Hg, Hv, Ha in Hmiss. tauto.
  - rewrite Hdst in Hdst'. injection Hdst' as <-.
    destruct Hfin as [output' n bak ? Hrun' Hn Hbak' _|output' bak ? Hrun' Hbak' Hdir| |];
      try congruence.
    + rewrite Hrun in Hrun'. injection Hrun' as <-.
      rewrite Hbak in Hbak'. injection Hbak' as <-.
      rewrite lookup_insert_ne, Hc1 in Hn by done. injection Hn as <-.
      split_and!; [done|..].
      * by rewrite lookup_insert_ne, lookup_insert_ne, lookup_delete_eq.
      * by rewrite lookup_insert_ne, lookup_insert_eq.
      * by rewrite lookup_insert_ne, lookup_insert_ne, lookup_delete_ne, lookup_insert_eq.
      * by rewrite lookup_insert_eq.
    + rewrite Hbak in Hbak'. injection Hbak' as <-.
      rewrite lookup_insert_ne in Hdir by done. done.
Qed.

Lemma successful_transcode_effects_witness :
  out (process_file demo_env "/v/b.avi" None demo_world) = Ok tt
  ∧ post (process_file demo_env "/v/b.avi" None demo_world) !! "/v/b.avi" = None
  ∧ post (process_file demo_env "/v/b.avi" None demo_world) !! ("/v/b.avi" +:+ ".bak")
    = Some (File "avi/xvid/mp3")
  ∧ post (process_file demo_env "/v/b.avi" None demo_world) !! "/v/b.mp4"
    = Some (File "mp4/avc/aac")
  ∧ post (process_file demo_env "/v/b.avi" None demo_world) !! processed_files_path demo_env
    = Some (File ("" +:+ "/v/b.mp4" +:+ nl)).
Proof.
  apply (successful_transcode_effects demo_env "/v/b.avi" demo_world "" "avi/xvid/mp3"
           (track "General" "AVI" 0) (track "Video" "MPEG-4 Visual" 0)
           (track "Audio" "MPEG Audio" 2) "/v/b.mp4" "mp4/avc/aac");
    try reflexivity; try done.
Defined.

(** X6: when a file reaches the transcode (the subtitle pass has
    returned) and the transcode fails (destination other than the
    source and not a directory), the call returns with the error text on
    the error stream; nothing is left at the destination path, whatever was
    there before; the source and the ledger are as they were. *)
Theorem failed_transcode_effects env p ov w L c g v a dst stderr partial :
  supported_extension p = true →
  out (process_subtitle_file env p w) = Ok tt →
  w !! processed_files_path env = Some (File L) →
  in_ledger p L = false →
  w !! p = Some (File c) →
  first_track "General" (mediainfo env c) = Ok g →
  format g ≠ "" →
  first_track "Video" (mediainfo env c) = Ok v →
  first_track "Audio" (mediainfo env c) = Ok a →
  compliant g v a ov (Path.suffix p) = false →
  Path.with_suffix p ("." +:+ destination_gformat g ov (Path.suffix p)) = Ok dst →
  dst ≠ p →
  ffmpeg env (post (process_subtitle_file env p w))
    (Transcode p dst (output_vcodec_of (format v))
       (output_acodec_of (format a) (channel_s a)) "copy") = Failed stderr partial →
  post (process_subtitle_file env p w) !! dst ≠ Some Dir →
  out (process_file env p ov w) = Ok tt
  ∧ post (process_file env p ov w) !! dst = None
  ∧ post (process_file env p ov w) !! p = Some (File c)
  ∧ post (process_file env p ov w) !! processed_files_path env = Some (File L)
  ∧ PrintErr stderr ∈ evs (process_file env p ov w).
Proof.
  intros Hext Hsub HL Hhit Hc Hg Hfmt Hv Ha Hcompl Hdst Hne Hrun Hdir.
  destruct (file_step_probed env p ov w L c _ _ _ Hext Hsub HL Hhit Hc
              (process_file_step env p ov w))
    as (w1 & e1 & Hw1 & Hc1 & HL1 & Hm & _ & _ & Hin).
  rewrite <- Hw1 in Hrun, Hdir.
  pose proof (destination_dotted _ _ _ _ Hdst) as Hdd.
  destruct Hm as [| | | ? ? ? ? ? ? Hmiss| | | |L' c' g' v' a' dst' o w' e2 e ? ? ? ? ? ? ? ? Hdst' Hfin ? ? Herr];
    same_file; try congruence.
  - unfold missing_track in Hmiss. rewrite Hg, Hv, Ha in Hmiss. tauto.
  - rewrite Hdst in Hdst'. injection Hdst' as <-.
    assert (o = Ok tt ∧ PrintErr stderr ∈ e2) as [-> Hpe].
    { destruct Hfin as [? ? ? ? Hrun'|? ? ? Hrun'|s ? ? ? Hrun' _ _ _ _ Hs|s ? Hrun' Hd];
        try congruence.
      rewrite Hrun in Hrun'. injection Hrun' as <- <-. done. }
    destruct (failed_transcode_cleanup env w1 p dst L _ stderr partial _ w' e2 Hfin Hrun Hne Hdd
                eq_refl) as (Hd1 & Hd2 & Hd3).
    rewrite Hd1, Hd2, Hd3. split_and!; try done. by apply Hin, Herr.
Qed.

Lemma failed_transcode_effects_witness :
  out (process_file demo_env "/v/t.mkv" None demo_world) = Ok tt
  ∧ post (process_file demo_env "/v/t.mkv" None demo_world) !! "/v/t..mkv" = None
  ∧ post (process_file demo_env "/v/t.mkv" None demo_world) !! "/v/t.mkv"
    = Some (File "mkv/hevc/ac3 truncated")
  ∧ post (process_file demo_env "/v/t.mkv" None demo_world) !! processed_files_path demo_env
    = Some (File "")
  ∧ PrintErr "Invalid data found when processing input"
    ∈ evs (process_file demo_env "/v/t.mkv" None demo_world).
Proof.
  apply (failed_transcode_effects demo_env "/v/t.mkv" None demo_world "" "mkv/hevc/ac3 truncated"
           (track "General" "Matroska" 0) (track "Video" "HEVC" 0)
           (track "Audio" "AC-3" 6) "/v/t..mkv" _ (Some "partial"));
    try reflexivity; try done.
Defined.

(** ** The subtitle pass, case by case *)

Lemma subtitle_conversion_eq env src enc vtt w :
  try_except_ffmpeg
    (ffmpeg_run env (Subtitle src enc vtt) false ;;
     print ("- generated subtitle " +:+ vtt))
    (λ stderr, line <- decode stderr ;; print_err line) w
  = match ffmpeg env w (Subtitle src enc vtt) with
    | Done o =>
        Res (Ok tt) (<[vtt := File o]> w)
          [Ran (Subtitle src enc vtt) true; Print ("- generated subtitle " +:+ vtt)]
    | Failed stderr partial =>
        Res (Raise AttributeError)
          (match partial with Some o => <[vtt := File o]> w | None => w end)
          [Ran (Subtitle src enc vtt) false]
    end.
Proof.
  unfold try_except_ffmpeg, bind, ffmpeg_run.
  destruct (ffmpeg env w (Subtitle src enc vtt)) as [o|stderr [o|]]; reflexivity.
Qed.

Lemma process_subtitle_file_eq env p w vtt srt ssa :
  Path.with_suffix p ".vtt" = Ok vtt →
  Path.with_suffix p ".srt" = Ok srt →
  Path.with_suffix p ".ssa" = Ok ssa →
  process_subtitle_file env p w
  = match w !! vtt, w !! srt, w !! ssa with
    | Some _, _, _ => Res (Ok tt) w []
    | None, Some n, _ =>
        try_except_ffmpeg
          (ffmpeg_run env (Subtitle srt (sub_encoding_of (magic env n)) vtt) false ;;
           print ("- generated subtitle " +:+ vtt))
          (λ stderr, line <- decode stderr ;; print_err line) w
    | None, None, Some n =>
        try_except_ffmpeg
          (ffmpeg_run env (Subtitle ssa (sub_encoding_of (magic env n)) vtt) false ;;
           print ("- generated subtitle " +:+ vtt))
          (λ stderr, line <- decode stderr ;; print_err line) w
    | None, None, None => Res (Ok tt) w []
    end.
Proof.
  intros Hvtt Hsrt Hssa. unfold process_subtitle_file.
  unfold bind at 1. unfold lift at 1. rewrite Hvtt.
  unfold bind at 1. unfold exists_ at 1.
  destruct (w !! vtt) as [nv|] eqn:Ev.
  { rewrite bool_decide_true by eauto. reflexivity. }
  rewrite bool_decide_false by (by intros [? ?]). cbn [negb].
  unfold _SUPPORTED_SUBTITLE_EXTENSIONS. cbn [subtitle_loop].
  change ("." +:+ "srt") with ".srt". change ("." +:+ "ssa") with ".ssa".
  unfold bind at 1. unfold lift at 1. rewrite Hsrt.
  unfold bind at 1. unfold exists_ at 1.
  destruct (w !! srt) as [n|] eqn:Es.
  { rewrite bool_decide_true by eauto.
    unfold bind at 1. unfold Magic_from_file at 1. rewrite Es.
    unfold sub_encoding_of.
    destruct (try_except_ffmpeg _ _ w) as [o w' e]. reflexivity. }
  rewrite bool_decide_false by (by intros [? ?]).
  unfold bind at 1. unfold lift at 1. rewrite Hssa.
  unfold bind at 1. unfold exists_ at 1.
  destruct (w !! ssa) as [n|] eqn:Ea.
  { rewrite bool_decide_true by eauto.
    unfold bind at 1. unfold Magic_from_file at 1. rewrite Ea.
    unfold sub_encoding_of.
    destruct (try_except_ffmpeg _ _ w) as [o w' e]. reflexivity. }
  rewrite bool_decide_false by (by intros [? ?]). reflexivity.
Qed.

(** X7: a subtitle is converted exactly when the video has no [.vtt]
    sibling and has a [.srt] or [.ssa] sibling; in every other case the
    subtitle pass changes nothing and prints nothing. *)
Theorem subtitle_converted_iff env p w vtt srt ssa :
  Path.with_suffix p ".vtt" = Ok vtt →
  Path.with_suffix p ".srt" = Ok srt →
  Path.with_suffix p ".ssa" = Ok ssa →
  (subtitle_runs (evs (process_subtitle_file env p w)) ≠ []
   ↔ w !! vtt = None ∧ (is_Some (w !! srt) ∨ is_Some (w !! ssa)))
  ∧ (subtitle_runs (evs (process_subtitle_file env p w)) = [] →
     process_subtitle_file env p w = Res (Ok tt) w []).
Proof.
  intros Hvtt Hsrt Hssa.
  rewrite (process_subtitle_file_eq env p w vtt srt ssa Hvtt Hsrt Hssa).
  destruct (w !! vtt) as [nv|]; [|destruct (w !! srt) as [n|]; [|destruct (w !! ssa) as [n|]]];
    rewrite ?subtitle_conversion_eq.
  - split; [|done]. simpl. split; [done | by intros [? _]].
  - destruct (ffmpeg env w _) as [o|stderr partial]; simpl;
      (split; [split; [intros _; split; eauto | done] | done]).
  - destruct (ffmpeg env w _) as [o|stderr partial]; simpl;
      (split; [split; [intros _; split; eauto | done] | done]).
  - split; [|done]. simpl. split; [done|]. intros [_ [[? ?]|[? ?]]]; done.
Qed.

Lemma subtitle_converted_iff_witness :
  (subtitle_runs (evs (process_subtitle_file demo_env "/v/b.avi"
                         (<["/v/b.ssa" := File "subs"]> demo_world))) ≠ []
   ↔ <["/v/b.ssa" := File "subs"]> demo_world !! "/v/b.vtt" = None
     ∧ (is_Some (<["/v/b.ssa" := File "subs"]> demo_world !! "/v/b.srt")
        ∨ is_Some (<["/v/b.ssa" := File "subs"]> demo_world !! "/v/b.ssa")))
  ∧ (subtitle_runs (evs (process_subtitle_file demo_env "/v/b.avi"
                           (<["/v/b.ssa" := File "subs"]> demo_world))) = [] →
     process_subtitle_file demo_env "/v/b.avi" (<["/v/b.ssa" := File "subs"]> demo_world)
     = Res (Ok tt) (<["/v/b.ssa" := File "subs"]> demo_world) []).
Proof.
  apply (subtitle_converted_iff demo_env "/v/b.avi" _ "/v/b.vtt" "/v/b.srt" "/v/b.ssa");
    reflexivity.
Defined.

(** X8: the subtitle pass converts at most one file per video: the [.srt]
    sibling when there is one, the [.ssa] sibling only when there is no
    [.srt]; the output is the [.vtt] sibling, and the character encoding
    handed to the converter is the detected one, with [unknown-8bit]
    replaced by [iso-8859-1]. *)
Theorem subtitle_source_and_encoding env p w vtt srt ssa cmd ok :
  Path.with_suffix p ".vtt" = Ok vtt →
  Path.with_suffix p ".srt" = Ok srt →
  Path.with_suffix p ".ssa" = Ok ssa →
  (cmd, ok) ∈ subtitle_runs (evs (process_subtitle_file env p w)) →
  subtitle_runs (evs (process_subtitle_file env p w)) = [(cmd, ok)]
  ∧ ∃ src n enc,
      w !! src = Some n
      ∧ cmd = Subtitle src enc vtt
      ∧ (src = srt ∨ (src = ssa ∧ w !! srt = None))
      ∧ enc ≠ "unknown-8bit"
      ∧ (magic env n ≠ "unknown-8bit" → enc = magic env n)
      ∧ (magic env n = "unknown-8bit" → enc = "iso-8859-1").
Proof.
  intros Hvtt Hsrt Hssa.
  rewrite (process_subtitle_file_eq env p w vtt srt ssa Hvtt Hsrt Hssa).
  assert (∀ d, sub_encoding_of d ≠ "unknown-8bit"
               ∧ (d ≠ "unknown-8bit" → sub_encoding_of d = d)
               ∧ (d = "unknown-8bit" → sub_encoding_of d = "iso-8859-1")) as Henc.
  { intros d. unfold sub_encoding_of. case_bool_decide; split_and!; done. }
  destruct (w !! vtt) as [nv|]; [|destruct (w !! srt) as [n|] eqn:Es;
                                  [|destruct (w !! ssa) as [n|] eqn:Ea]];
    rewrite ?subtitle_conversion_eq; simpl; try by intros ?%elem_of_nil.
  - destruct (ffmpeg env w _) as [o|stderr partial]; simpl;
      intros [= -> ->]%list_elem_of_singleton; (split; [done|]);
      exists srt, n, (sub_encoding_of (magic env n));
      (split_and!; [done | done | by left | apply Henc | apply Henc | apply Henc]).
  - destruct (ffmpeg env w _) as [o|stderr partial]; simpl;
      intros [= -> ->]%list_elem_of_singleton; (split; [done|]);
      exists ssa, n, (sub_encoding_of (magic env n));
      (split_and!; [done | done | by right | apply Henc | apply Henc | apply Henc]).
Qed.

Lemma subtitle_source_and_encoding_witness :
  let w := <["/v/b.srt" := File "srt"]> (<["/v/b.ssa" := File "ssa"]> demo_world) in
  subtitle_runs (evs (process_subtitle_file demo_env "/v/b.avi" w))
  = [(Subtitle "/v/b.srt" "utf-8" "/v/b.vtt", true)]
  ∧ ∃ src n enc,
      w !! src = Some n
      ∧ Subtitle "/v/b.srt" "utf-8" "/v/b.vtt" = Subtitle src enc "/v/b.vtt"
      ∧ (src = "/v/b.srt" ∨ (src = "/v/b.ssa" ∧ w !! "/v/b.srt" = None))
      ∧ enc ≠ "unknown-8bit"
      ∧ (magic demo_env n ≠ "unknown-8bit" → enc = magic demo_env n)
      ∧ (magic demo_env n = "unknown-8bit" → enc = "iso-8859-1").
Proof.
  intros w.
  apply (subtitle_source_and_encoding demo_env "/v/b.avi" w "/v/b.vtt" "/v/b.srt" "/v/b.ssa");
    try reflexivity.
  vm_compute. by left.
Defined.

(** X9: a subtitle conversion that fails stops the file: the subtitle
    call is [.run()] without capture, so the [stderr] of the exception is
    [None] and the handler's [e.stderr.decode()] raises [AttributeError].
    The exception leaves [process_subtitle_file] and [process_file]: no
    error text is printed, the ledger is not read, nothing is probed or
    transcoded, and no path other than the [.vtt] sibling is changed. *)
Theorem failed_subtitle_conversion_raises env p ov w vtt srt ssa cmd :
  supported_extension p = true →
  Path.with_suffix p ".vtt" = Ok vtt →
  Path.with_suffix p ".srt" = Ok srt →
  Path.with_suffix p ".ssa" = Ok ssa →
  (cmd, false) ∈ subtitle_runs (evs (process_subtitle_file env p w)) →
  out (process_subtitle_file env p w) = Raise AttributeError
  ∧ (∀ line, PrintErr line ∉ evs (process_subtitle_file env p w))
  ∧ (∀ q, q ≠ vtt → post (process_subtitle_file env p w) !! q = w !! q)
  ∧ out (process_file env p ov w) = Raise AttributeError
  ∧ post (process_file env p ov w) = post (process_subtitle_file env p w)
  ∧ probes (evs (process_file env p ov w)) = []
  ∧ transcodes (evs (process_file env p ov w)) = [].
Proof.
  intros Hext Hvtt Hsrt Hssa Hin.
  assert (out (process_subtitle_file env p w) = Raise AttributeError
          ∧ (∀ line, PrintErr line ∉ evs (process_subtitle_file env p w))
          ∧ (∀ q, q ≠ vtt → post (process_subtitle_file env p w) !! q = w !! q))
    as (Hout & Herr & Hframe).
  { revert Hin. rewrite (process_subtitle_file_eq env p w vtt srt ssa Hvtt Hsrt Hssa).
    destruct (w !! vtt) as [nv|]; [|destruct (w !! srt) as [n|] eqn:Es;
                                    [|destruct (w !! ssa) as [n|] eqn:Ea]];
      rewrite ?subtitle_conversion_eq; simpl; try by intros ?%elem_of_nil.
    - destruct (ffmpeg env w _) as [o|stderr partial] eqn:Er; simpl;
        intros [= ->]%list_elem_of_singleton.
      split_and!; [done | |].
      + by intros line ?%list_elem_of_singleton.
      + intros q Hq. destruct partial; [by rewrite lookup_insert_ne | done].
    - destruct (ffmpeg env w _) as [o|stderr partial] eqn:Er; simpl;
        intros [= ->]%list_elem_of_singleton.
      split_and!; [done | |].
      + by intros line ?%list_elem_of_singleton.
      + intros q Hq. destruct partial; [by rewrite lookup_insert_ne | done]. }
  split_and!; try done;
    destruct (process_file_step env p ov w)
      as [e Hno _ _|vtt' w1 o w' e1 e _ _ _ _ _ _ _ _ _ _ Hsub _
         |vtt' w' e _ _ Hrun _ Ht Hpr _ _]; congruence.
Qed.

Lemma failed_subtitle_conversion_raises_witness :
  let w := <["/v/b.srt" := File "srt"]> demo_world in
  out (process_subtitle_file demo_env_subtitles "/v/b.avi" w) = Raise AttributeError
  ∧ (∀ line, PrintErr line ∉ evs (process_subtitle_file demo_env_subtitles "/v/b.avi" w))
  ∧ (∀ q, q ≠ "/v/b.vtt" →
          post (process_subtitle_file demo_env_subtitles "/v/b.avi" w) !! q = w !! q)
  ∧ out (process_file demo_env_subtitles "/v/b.avi" None w) = Raise AttributeError
  ∧ post (process_file demo_env_subtitles "/v/b.avi" None w)
    = post (process_subtitle_file demo_env_subtitles "/v/b.avi" w)
  ∧ probes (evs (process_file demo_env_subtitles "/v/b.avi" None w)) = []
  ∧ transcodes (evs (process_file demo_env_subtitles "/v/b.avi" None w)) = [].
Proof.
  intros w.
  apply (failed_subtitle_conversion_raises demo_env_subtitles "/v/b.avi" None w
           "/v/b.vtt" "/v/b.srt" "/v/b.ssa" (Subtitle "/v/b.srt" "iso-8859-1" "/v/b.vtt"));
    try reflexivity.
  vm_compute. by left.
Defined.

(** ** The ledger file *)

Lemma append_empty (s : string) : s +:+ "" = s.
Proof. apply chars_inj. by rewrite chars_app, app_nil_r. Qed.

Lemma append_assoc (a b c : string) : (a +:+ b) +:+ c = a +:+ b +:+ c.
Proof. apply chars_inj. by rewrite !chars_app, app_assoc. Qed.

Lemma append_inj_r (a b c : string) : a +:+ c = b +:+ c → a = b.
Proof.
  intros E. apply chars_inj. apply (f_equal chars) in E. rewrite !chars_app in E.
  by apply app_inv_tail in E.
Qed.

Lemma complete_lines_empty : complete_lines "".
Proof. by left. Qed.

Lemma in_ledger_append L p q :
  complete_lines L → nl_free p → p ≠ "" →
  in_ledger q (L +:+ p +:+ nl) = in_ledger q L || bool_decide (q = p).
Proof.
  intros HL Hp Hne. unfold in_ledger. rewrite readlines_append by done.
  rewrite existsb_app. simpl. rewrite orb_false_r. f_equal.
  apply bool_decide_ext. split; [apply append_inj_r | by intros ->].
Qed.

(** X10: [mark_as_good] on a ledger that is a regular file of complete
    lines, or that is absent, with a path without line break.  When the
    ledger exists, or is absent and the directory that is to hold it
    exists, the call returns, the ledger is its old text followed by the
    path and a line feed, and the scan of [process_file] then finds that
    path and finds any other path exactly when it found it before.  When
    the ledger is absent and its directory is not there either, the call
    raises and creates nothing. *)
Theorem mark_as_good_then_scan p q ledger w :
  w !! ledger ≠ Some Dir → w !! ledger ≠ Some Special →
  complete_lines (ledger_text w ledger) →
  nl_free p → p ≠ "" →
  (is_Some (w !! ledger) ∨ w !! Path.parent ledger = Some Dir →
   out (mark_as_good p ledger w) = Ok tt
   ∧ post (mark_as_good p ledger w) !! ledger
     = Some (File (ledger_text w ledger +:+ p +:+ nl))
   ∧ in_ledger q (ledger_text (post (mark_as_good p ledger w)) ledger)
     = in_ledger q (ledger_text w ledger) || bool_decide (q = p))
  ∧ (w !! ledger = None → w !! Path.parent ledger ≠ Some Dir →
     (∃ err, out (mark_as_good p ledger w) = Raise err)
     ∧ post (mark_as_good p ledger w) = w
     ∧ (w !! Path.parent ledger = None →
        out (mark_as_good p ledger w) = Raise (FileNotFoundError ledger))).
Proof.
  intros Hd Hs HL Hp Hne. unfold mark_as_good, open_append, ledger_text in *.
  destruct (w !! ledger) as [[L| |]|] eqn:E; try done; simpl.
  - split; [|done]. intros _. rewrite lookup_insert_eq.
    split_and!; [done | done |]. by apply in_ledger_append.
  - split.
    + intros [[? [=]]|Hpar]. rewrite Hpar. simpl. rewrite lookup_insert_eq.
      split_and!; [done | done |]. by apply (in_ledger_append "").
    + intros _ Hpar. destruct (w !! Path.parent ledger) as [[| |]|]; simpl;
        try done; split_and!; eauto; done.
Qed.

Lemma mark_as_good_then_scan_witness :
  (is_Some (demo_files !! demo_ledger) ∨ demo_files !! Path.parent demo_ledger = Some Dir →
   out (mark_as_good "/v/a.mp4" demo_ledger demo_files) = Ok tt
   ∧ post (mark_as_good "/v/a.mp4" demo_ledger demo_files) !! demo_ledger
     = Some (File (ledger_text demo_files demo_ledger +:+ "/v/a.mp4" +:+ nl))
   ∧ in_ledger "/v/a.mp4"
       (ledger_text (post (mark_as_good "/v/a.mp4" demo_ledger demo_files)) demo_ledger)
     = in_ledger "/v/a.mp4" (ledger_text demo_files demo_ledger)
       || bool_decide ("/v/a.mp4" = "/v/a.mp4"))
  ∧ (demo_files !! demo_ledger = None →
     demo_files !! Path.parent demo_ledger ≠ Some Dir →
     (∃ err, out (mark_as_good "/v/a.mp4" demo_ledger demo_files) = Raise err)
     ∧ post (mark_as_good "/v/a.mp4" demo_ledger demo_files) = demo_files
     ∧ (demo_files !! Path.parent demo_ledger = None →
        out (mark_as_good "/v/a.mp4" demo_ledger demo_files)
        = Raise (FileNotFoundError demo_ledger))).
Proof.
  apply (mark_as_good_then_scan "/v/a.mp4" "/v/a.mp4" demo_ledger demo_files);
    [done | done | by left | compute_done | done].
Defined.

(** Without the directory [~/.chromecastize] the ledger cannot be
    created. *)
Example mark_as_good_without_ledger_directory :
  mark_as_good "/v/a.mp4" demo_ledger (delete "/home/user/.chromecastize" demo_files)
  = Res (Raise (FileNotFoundError demo_ledger))
      (delete "/home/user/.chromecastize" demo_files) [].
Proof. reflexivity. Qed.

(** X11: when the last line of the ledger lacks its line terminator, the
    path that [mark_as_good] appends is glued to that line: the scan of
    [process_file] does not find the path afterwards unless it found it
    before. *)
Theorem unterminated_ledger_hides_appended_path p ledger w L tail :
  w !! ledger = Some (File (L +:+ tail)) →
  complete_lines L → nl_free tail → tail ≠ "" → nl_free p →
  in_ledger p (ledger_text (post (mark_as_good p ledger w)) ledger) = in_ledger p L.
Proof.
  intros Hw HL [Ht1 Ht2] Hne [Hp1 Hp2]. unfold mark_as_good, open_append, ledger_text.
  rewrite Hw. simpl. rewrite lookup_insert_eq.
  rewrite append_assoc, <- (append_assoc tail p nl).
  rewrite in_ledger_append; [|done| |].
  - rewrite bool_decide_false; [by rewrite orb_false_r|].
    intros E. apply (f_equal (λ x, length (chars x))) in E.
    rewrite chars_app, length_app in E.
    assert (length (chars tail) ≠ 0)%nat; [|lia].
    intros E0. apply Hne, chars_inj. by destruct (chars tail).
  - split; rewrite chars_app; intros [?|?]%elem_of_app; done.
  - intros E. apply (f_equal chars) in E. rewrite chars_app in E.
    apply app_eq_nil in E as [E _]. apply Hne, chars_inj. by rewrite E.
Qed.

Lemma unterminated_ledger_hides_appended_path_witness :
  in_ledger "/v/a.mp4"
    (ledger_text (post (mark_as_good "/v/a.mp4" demo_ledger
                          (<[demo_ledger := File ("/v/x.mp4" +:+ nl +:+ "/v/y.mp4")]> demo_files)))
       demo_ledger)
  = in_ledger "/v/a.mp4" ("/v/x.mp4" +:+ nl).
Proof.
  apply (unterminated_ledger_hides_appended_path "/v/a.mp4" demo_ledger _
           ("/v/x.mp4" +:+ nl) "/v/y.mp4");
    [reflexivity | right; by exists (chars "/v/x.mp4") | compute_done | done | compute_done].
Defined.

(** ** What holds of every run of the batch *)

Lemma wp_for_each_always {A} (l : list A) (body : A → M unit)
    (I : World → list event → Prop) w e0 :
  I w e0 →
  (∀ x w0 e1, x ∈ l → I w0 e1 → wp (body x) w0 (λ _ w' e, I w' (e1 ++ e))) →
  wp (for_each l body) w (λ _ w' e, I w' (e0 ++ e)).
Proof.
  revert w e0. induction l as [|x l IH]; intros w e0 HI Hbody; simpl.
  - wp_step. by rewrite app_nil_r.
  - wp_step. eapply wp_mono; [apply (Hbody x w e0); [by left | done]|].
    intros [[]|err] w1 e1 H1; [|done].
    eapply wp_mono; [apply (IH w1 (e0 ++ e1)); [done|]|].
    + intros y w0 e2 Hy. apply Hbody. by right.
    + intros o w2 e2 H2. simpl in H2. by rewrite app_assoc.
Qed.

(** An invariant of the filesystem and the events that printing keeps and
    every call of [process_file] keeps holds when [main] ends, whether it
    returns or raises. *)
Lemma main_always env paths (I : World → list event → Prop) w :
  I w [] →
  (∀ w0 e0 line, I w0 e0 → I w0 (e0 ++ [Print line])) →
  (∀ p q (wd : World) w0 e0, p ∈ paths →
     q = p ∨ q ∈ listing env (filter (λ q, child_of p q = true) (elements (dom wd))) →
     I w0 e0 → wp (process_file env q None) w0 (λ _ w' e, I w' (e0 ++ e))) →
  wp (main env paths) w (λ _ w' e, I w' e).
Proof.
  intros HI Hprint Hfile. unfold main.
  apply (wp_for_each_always paths _ I w []); [done|].
  intros path w0 e0 Hpath HI0. do 2 wp_step.
  destruct (bool_decide (is_Some (w0 !! path))); cbn [negb].
  2:{ wp_step. simpl. by apply Hprint. }
  wp_step. unfold wp at 1. simpl.
  destruct (bool_decide (w0 !! path = Some Dir)).
  - wp_step. unfold wp at 1. simpl.
    apply (wp_for_each_always _ _ I w0 e0); [done|].
    intros q w1 e1 Hq HI1. apply (Hfile path q w0); [done | by right | done].
  - wp_step. unfold wp at 1. simpl.
    destruct (w0 !! path) as [[c| |]|];
      try (wp_step; simpl; by apply Hprint).
    apply (Hfile path path w0); [done | by left | done].
Qed.

Lemma appended_to_same (w w' : World) ledger :
  w' !! ledger = w !! ledger → appended_to w w' ledger.
Proof.
  intros E. unfold appended_to. destruct (w !! ledger) as [[L| |]|]; try done.
  exists "". by rewrite append_empty.
Qed.

Lemma appended_to_trans (w w1 w2 : World) ledger :
  appended_to w w1 ledger → appended_to w1 w2 ledger → appended_to w w2 ledger.
Proof.
  unfold appended_to. intros H1 H2.
  destruct (w !! ledger) as [[L| |]|]; try (by rewrite H1 in H2).
  destruct H1 as [a1 H1]. rewrite H1 in H2. destruct H2 as [a2 H2].
  exists (a1 +:+ a2). by rewrite <- append_assoc.
Qed.

Lemma file_step_appends env w p ov o w' e :
  file_step env w p ov o w' e → appended_to w w' (processed_files_path env).
Proof.
  intros Hstep.
  destruct Hstep as [e Hno _ _|vtt w1 o w' e1 e Hext Hvtt Hrun Hw1 Hp HLw Hm Ht Hpr Hin
                    |vtt w' e Hext Hvtt Hrun Hw' _ _ _ _].
  { by apply appended_to_same. }
  2:{ apply appended_to_same. destruct Hw' as [->|(_ & c & ->)]; [done|].
      rewrite lookup_insert_ne; [done|]. intros E.
      apply (dotted_not_ledger env vtt); [|done]. by eapply with_suffix_dotted. }
  apply (appended_to_trans w w1); [by apply appended_to_same|].
  destruct Hm as [| | | | | ? ? ? ? ? ? HL | |L c g v a dst o w' e2 e' HL ? ? ? ? ? ? ? Hdst Hfin];
    try (by apply appended_to_same).
  - unfold appended_to. rewrite HL, lookup_insert_eq. by eexists.
  - pose proof (destination_dotted _ _ _ _ Hdst) as Hdd.
    assert (processed_files_path env ≠ dst) as HLd by (by apply dotted_not_ledger).
    destruct Hfin as [output n bak ? ? ? ? ?|output bak ? ? ? ?|stderr part w2 ? ? -> ?|].
    + unfold appended_to. rewrite HL, lookup_insert_eq. by eexists.
    + apply appended_to_same. by rewrite lookup_insert_ne.
    + apply appended_to_same. rewrite lookup_delete_ne by done.
      destruct part; by rewrite ?lookup_insert_ne.
    + by apply appended_to_same.
Qed.

(** X12: whatever the input paths and however the batch ends, the ledger
    file is only ever appended to: its earlier content stays a prefix of the
    later one, and a ledger that is absent (or not a regular file) at the
    start is never created or replaced. *)
Theorem ledger_is_append_only env paths w :
  appended_to w (post (main env paths w)) (processed_files_path env).
Proof.
  apply (main_always env paths (λ w' _, appended_to w w' (processed_files_path env)) w).
  - by apply appended_to_same.
  - done.
  - intros p q wd w0 e0 _ _ HI. eapply wp_mono; [apply file_step_sound|].
    intros o w' e Hstep. simpl. apply (appended_to_trans w w0); [done|].
    by eapply file_step_appends.
Qed.

(** As [main_always], for a postcondition that also speaks of the
    outcome. *)
Lemma main_post env paths (P : outcome unit → World → list event → Prop) w :
  P (Ok tt) w [] →
  (∀ w0 e0 line, P (Ok tt) w0 e0 → P (Ok tt) w0 (e0 ++ [Print line])) →
  (∀ p q (wd : World) w0 e0, p ∈ paths →
     q = p ∨ q ∈ listing env (filter (λ q, child_of p q = true) (elements (dom wd))) →
     P (Ok tt) w0 e0 → wp (process_file env q None) w0 (λ o w' e, P o w' (e0 ++ e))) →
  wp (main env paths) w P.
Proof.
  intros HP Hprint Hfile. unfold main.
  apply (wp_for_each_post paths _ P w []); [done|].
  intros path w0 e0 Hpath HP0. do 2 wp_step.
  destruct (bool_decide (is_Some (w0 !! path))); cbn [negb].
  2:{ wp_step. simpl. by apply Hprint. }
  wp_step. unfold wp at 1. simpl.
  destruct (bool_decide (w0 !! path = Some Dir)).
  - wp_step. unfold wp at 1. simpl.
    apply (wp_for_each_post _ _ P w0 e0); [done|].
    intros q w1 e1 Hq HP1. apply (Hfile path q w0); [done | by right | done].
  - wp_step. unfold wp at 1. simpl.
    destruct (w0 !! path) as [[c| |]|];
      try (wp_step; simpl; by apply Hprint).
    apply (Hfile path path w0); [done | by left | done].
Qed.

Lemma file_step_ffmpeg_failures env w p o w' e :
  file_step env w p None o w' e →
  (∀ stderr, o ≠ Raise (FfmpegError stderr))
  ∧ (∀ cmd, (cmd, false) ∈ subtitle_runs e → o = Raise AttributeError).
Proof.
  intros Hstep.
  destruct Hstep as [e Hno _ _ Hsub|vtt w1 o w' e1 e Hext Hvtt Hrun Hw1 Hp HLw Hm _ _ _ _ Hall|];
    [| |done].
  - split; [done|]. rewrite Hsub. by intros cmd ?%elem_of_nil.
  - split.
    + intros stderr ->.
      inversion Hm as [| | | | | |? ? ? ? ? ? ? ? ? ? ? ? ? ? ? Hbad|];
        subst; try done.
      * by destruct (post (process_subtitle_file env p w) !! processed_files_path env)
          as [[| |]|].
      * by destruct (post (process_subtitle_file env p w) !! p) as [[| |]|].
      * unfold Path.with_suffix in Hbad. by destruct (Path.with_suffix_l _ _).
      * match goal with H : finish _ _ _ _ _ _ _ _ _ |- _ => inversion H end.
    + intros cmd Hcmd. rewrite Forall_forall in Hall. by apply Hall in Hcmd.
Qed.

(** X13: what becomes of a failure of ffmpeg in a batch.  An
    [ffmpeg.Error] itself never leaves [main]: both calls of ffmpeg sit in
    a [try] that catches it.  But the failure of a subtitle conversion
    stops the batch: whenever the events of a run hold a failed subtitle
    conversion, [main] has raised the [AttributeError] of the handler. *)
Theorem subtitle_failure_stops_the_batch env paths w :
  (∀ stderr, out (main env paths w) ≠ Raise (FfmpegError stderr))
  ∧ (∀ cmd, (cmd, false) ∈ subtitle_runs (evs (main env paths w)) →
            out (main env paths w) = Raise AttributeError).
Proof.
  apply (main_post env paths
           (λ o _ e, (∀ stderr, o ≠ Raise (FfmpegError stderr))
                     ∧ (∀ cmd, (cmd, false) ∈ subtitle_runs e →
                               o = Raise AttributeError)) w).
  - split; [done|]. by intros cmd ?%elem_of_nil.
  - intros w0 e0 line [_ H]. split; [done|]. intros cmd.
    rewrite subtitle_runs_app. simpl. rewrite app_nil_r. apply H.
  - intros p q wd w0 e0 _ _ [_ H0]. eapply wp_mono; [apply file_step_sound|].
    intros o w' e Hstep. simpl.
    destruct (file_step_ffmpeg_failures _ _ _ _ _ _ Hstep) as [H1 H2].
    split; [done|]. intros cmd. rewrite subtitle_runs_app.
    intros [Hin|Hin]%elem_of_app; [|by eapply H2].
    by specialize (H0 cmd Hin).
Qed.

Lemma subtitle_failure_stops_the_batch_witness :
  (Subtitle "/v/b.srt" "iso-8859-1" "/v/b.vtt", false)
    ∈ subtitle_runs (evs (main demo_env_subtitles ["/v/b.avi"; "/v/a.mp4"]
                            (<["/v/b.srt" := File "srt"]> demo_world)))
  ∧ out (main demo_env_subtitles ["/v/b.avi"; "/v/a.mp4"]
           (<["/v/b.srt" := File "srt"]> demo_world)) = Raise AttributeError.
Proof.
  assert ((Subtitle "/v/b.srt" "iso-8859-1" "/v/b.vtt", false)
            ∈ subtitle_runs (evs (main demo_env_subtitles ["/v/b.avi"; "/v/a.mp4"]
                                    (<["/v/b.srt" := File "srt"]> demo_world)))) as H.
  { vm_compute. apply list_elem_of_here. }
  split; [exact H|].
  exact (proj2 (subtitle_failure_stops_the_batch demo_env_subtitles
                  ["/v/b.avi"; "/v/a.mp4"] (<["/v/b.srt" := File "srt"]> demo_world)) _ H).
Defined.

Lemma file_step_trace env w p o w' e :
  file_step env w p None o w' e →
  (∀ q, q ∈ probes e → q = p ∧ supported_extension p = true)
  ∧ (∀ src dst vc ac sc ok,
       (Transcode src dst vc ac sc, ok) ∈ transcodes e →
       src = p ∧ p ∈ probes e
       ∧ vc ∈ ["copy"; _DEFAULT_VCODEC] ∧ ac ∈ ["copy"; _DEFAULT_ACODEC] ∧ sc = "copy"
       ∧ (Path.with_suffix p ".mp4" = Ok dst
          ∨ Path.with_suffix p ("." +:+ Path.suffix p) = Ok dst)
       ∧ (vc = "copy" → ac = "copy" → Path.with_suffix p ".mp4" = Ok dst)).
Proof.
  intros Hstep.
  destruct Hstep as [e Hno Htr Hpr|vtt w1 o w' e1 e Hext Hvtt Hrun Hw1 Hp HLw Hm Ht Hpr Hin
                    |vtt w' e _ _ _ _ Htr Hpr _ _].
  { rewrite Htr, Hpr. split; intros *; by intros ?%elem_of_nil. }
  2:{ rewrite Htr, Hpr. split; intros *; by intros ?%elem_of_nil. }
  rewrite Ht, Hpr.
  assert (∀ q, q ∈ probes e1 → q = p) as Hprobe.
  { intros q. destruct Hm;
      repeat match goal with H : probes _ = _ |- _ => rewrite H; clear H end;
      try (by intros ?%elem_of_nil); by intros ->%list_elem_of_singleton. }
  split; [intros q Hq; split; [by apply Hprobe | done]|].
  intros src dst vc ac sc ok.
  destruct Hm as [| | | | | | |L c g v a dst' o w' e2 e' HL ? ? ? ? ? ? Hc Hdst Hfin Ht2 Hpr2];
    try (match goal with H : transcodes _ = [] |- _ => rewrite H end;
         by intros ?%elem_of_nil).
  rewrite Ht2, Hpr2.
  assert (∃ ok', transcodes e2
                 = [(Transcode p dst' (output_vcodec_of (format v))
                       (output_acodec_of (format a) (channel_s a)) "copy", ok')])
    as [ok' ->] by (destruct Hfin; eauto).
  intros [= -> -> -> -> -> ->]%list_elem_of_singleton.
  assert (destination_gformat g None (Path.suffix p) = "mp4"
          ∧ output_gformat_of (format g) None (Path.suffix p) ≠ "ok"
          ∨ destination_gformat g None (Path.suffix p) = Path.suffix p
            ∧ output_gformat_of (format g) None (Path.suffix p) = "ok") as Hg.
  { unfold destination_gformat. case_bool_decide as Hok; [by right|]. left.
    destruct (output_gformat_cases (format g) None (Path.suffix p)) as [E|[E|[E _]]]; done. }
  split_and!; [done | by left | | | done | |].
  - unfold output_vcodec_of. destruct (str_in _ _); [by left | by right; left].
  - unfold output_acodec_of. destruct (is_supported_acodec _ _); [by left | by right; left].
  - destruct Hg as [[E _]|[E _]]; rewrite E in Hdst; [by left | by right].
  - intros Hv Ha. destruct Hg as [[E _]|[E Hok]]; rewrite E in Hdst; [done|].
    unfold compliant in Hc. by rewrite Hv, Ha, Hok in Hc.
Qed.

(** X14: the batch is not recursive and looks at video extensions only:
    every file it probes is an input path or a direct entry of an input
    directory, and its extension is in the supported list. *)
Theorem probes_stay_in_scope env paths w q :
  (∀ l, listing env l ≡ₚ l) →
  q ∈ probes (evs (main env paths w)) →
  in_scope paths q ∧ supported_extension q = true.
Proof.
  intros Hperm.
  pose (I := λ (_ : World) (e : list event),
          ∀ q, q ∈ probes e → in_scope paths q ∧ supported_extension q = true).
  assert (wp (main env paths) w (λ _ w' e, I w' e)) as H; [|by apply H].
  apply main_always.
  - by intros x ?%elem_of_nil.
  - intros w0 e0 line HI x. rewrite probes_app. simpl. rewrite app_nil_r. apply HI.
  - intros p x wd w0 e0 Hp Hx HI. eapply wp_mono; [apply file_step_sound|].
    intros o w' e Hstep y. simpl. rewrite probes_app.
    intros [Hy|Hy]%elem_of_app; [by apply HI|].
    apply file_step_trace in Hstep as [Hstep _]. destruct (Hstep y Hy) as [-> Hext].
    split; [|done]. destruct Hx as [->|Hx]; [by left|]. right. exists p. split; [done|].
    apply (elem_of_children env Hperm) in Hx. by destruct Hx.
Qed.

Lemma probes_stay_in_scope_witness :
  "/v/b.avi" ∈ probes (evs (main demo_env ["/v"] demo_world))
  ∧ in_scope ["/v"] "/v/b.avi" ∧ supported_extension "/v/b.avi" = true.
Proof.
  assert ("/v/b.avi" ∈ probes (evs (main demo_env ["/v"] demo_world))) as H.
  { compute_done. }
  split; [exact H|].
  apply (probes_stay_in_scope demo_env ["/v"] demo_world "/v/b.avi"); [done | exact H].
Defined.

(** X15: every transcode the batch invokes reads a file it has probed,
    copies the subtitle streams, takes [copy] or [h264] for video and [copy]
    or [libvorbis] for audio, and writes beside the source, to the stem with
    [.mp4] or to the stem with a dot and the old suffix; a transcode that
    copies both audio and video writes to [.mp4]. *)
Theorem batch_transcode_shape env paths w src dst vc ac sc ok :
  (Transcode src dst vc ac sc, ok) ∈ transcodes (evs (main env paths w)) →
  src ∈ probes (evs (main env paths w))
  ∧ vc ∈ ["copy"; "h264"] ∧ ac ∈ ["copy"; "libvorbis"] ∧ sc = "copy"
  ∧ (Path.with_suffix src ".mp4" = Ok dst
     ∨ Path.with_suffix src ("." +:+ Path.suffix src) = Ok dst)
  ∧ (vc = "copy" → ac = "copy" → Path.with_suffix src ".mp4" = Ok dst).
Proof.
  pose (I := λ (_ : World) (e : list event),
          ∀ src dst vc ac sc ok,
            (Transcode src dst vc ac sc, ok) ∈ transcodes e →
            src ∈ probes e
            ∧ vc ∈ ["copy"; "h264"] ∧ ac ∈ ["copy"; "libvorbis"] ∧ sc = "copy"
            ∧ (Path.with_suffix src ".mp4" = Ok dst
               ∨ Path.with_suffix src ("." +:+ Path.suffix src) = Ok dst)
            ∧ (vc = "copy" → ac = "copy" → Path.with_suffix src ".mp4" = Ok dst)).
  assert (wp (main env paths) w (λ _ w' e, I w' e)) as H; [|by apply H].
  apply main_always.
  - by intros ? ? ? ? ? ? ?%elem_of_nil.
  - intros w0 e0 line HI s1 d1 v1 a1 c1 k1. rewrite transcodes_app, probes_app. simpl.
    rewrite !app_nil_r. apply HI.
  - intros p x wd w0 e0 _ _ HI. eapply wp_mono; [apply file_step_sound|].
    intros o w' e Hstep s1 d1 v1 a1 c1 k1. simpl. rewrite transcodes_app, probes_app.
    intros [Hy|Hy]%elem_of_app.
    + destruct (HI _ _ _ _ _ _ Hy) as (? & ?). split; [|done]. apply elem_of_app. by left.
    + apply file_step_trace in Hstep as [_ Hstep].
      destruct (Hstep _ _ _ _ _ _ Hy) as (-> & Hin & ?).
      split; [|done]. apply elem_of_app. by right.
Qed.

Lemma batch_transcode_shape_witness :
  (Transcode "/v/e.mkv" "/v/e..mkv" "h264" "libvorbis" "copy", true)
    ∈ transcodes (evs (main demo_env ["/v/e.mkv"] demo_world))
  ∧ "/v/e.mkv" ∈ probes (evs (main demo_env ["/v/e.mkv"] demo_world))
  ∧ "h264" ∈ ["copy"; "h264"] ∧ "libvorbis" ∈ ["copy"; "libvorbis"] ∧ "copy" = "copy"
  ∧ (Path.with_suffix "/v/e.mkv" ".mp4" = Ok "/v/e..mkv"
     ∨ Path.with_suffix "/v/e.mkv" ("." +:+ Path.suffix "/v/e.mkv") = Ok "/v/e..mkv")
  ∧ ("h264" = "copy" → "libvorbis" = "copy" →
     Path.with_suffix "/v/e.mkv" ".mp4" = Ok "/v/e..mkv").
Proof.
  assert ((Transcode "/v/e.mkv" "/v/e..mkv" "h264" "libvorbis" "copy", true)
            ∈ transcodes (evs (main demo_env ["/v/e.mkv"] demo_world))) as H.
  { vm_compute. apply list_elem_of_here. }
  split; [exact H|].
  exact (batch_transcode_shape demo_env ["/v/e.mkv"] demo_world _ _ _ _ _ _ H).
Defined.

(** ** What the batch leaves alone *)

Lemma changed_within_refl S (w : World) : changed_within S w w.
Proof. by intros q Hq. Qed.

Lemma changed_within_insert S (w w1 : World) k n :
  changed_within S w w1 → S k → changed_within S w (<[k := n]> w1).
Proof.
  intros H Hk q Hq. destruct (decide (q = k)) as [->|Hne]; [done|].
  rewrite lookup_insert_ne in Hq by done. by apply H.
Qed.

Lemma changed_within_delete S (w w1 : World) k :
  changed_within S w w1 → S k → changed_within S w (delete k w1).
Proof.
  intros H Hk q Hq. destruct (decide (q = k)) as [->|Hne]; [done|].
  rewrite lookup_delete_ne in Hq by done. by apply H.
Qed.

Lemma changed_within_trans S (w w1 w2 : World) :
  changed_within S w w1 → changed_within S w1 w2 → changed_within S w w2.
Proof.
  intros H1 H2 q Hq. destruct (decide (w1 !! q = w !! q)) as [E|Hne].
  - apply H2. by rewrite E.
  - by apply H1.
Qed.

Lemma changed_within_mono (S S' : string → Prop) (w w' : World) :
  (∀ q, S q → S' q) → changed_within S w w' → changed_within S' w w'.
Proof. intros HS H q Hq. by apply HS, H. Qed.

Lemma file_step_frame env w p ov o w' e :
  file_step env w p ov o w' e →
  changed_within
    (λ q, q = processed_files_path env
          ∨ supported_extension p = true ∧ (q = p ∨ ∃ s, Path.with_suffix p s = Ok q))
    w w'.
Proof.
  intros Hstep.
  destruct Hstep as [e Hno _ _|vtt w1 o w' e1 e Hext Hvtt Hrun Hw1 Hp HLw Hm Ht Hpr Hin
                    |vtt w' e Hext Hvtt _ Hw' _ _ _ _].
  { apply changed_within_refl. }
  2:{ destruct Hw' as [->|(_ & c & ->)]; [apply changed_within_refl|].
      apply changed_within_insert; [apply changed_within_refl|].
      right. split; [done|]. right. by exists ".vtt". }
  set (S := λ q, q = processed_files_path env
                 ∨ supported_extension p = true ∧ (q = p ∨ ∃ s, Path.with_suffix p s = Ok q)).
  assert (S (processed_files_path env)) as SL by (by left).
  assert (S p) as Sp by (right; split; [done | by left]).
  assert (∀ s q, Path.with_suffix p s = Ok q → S q) as Ssib.
  { intros s q Hq. right. split; [done|]. right. by exists s. }
  assert (changed_within S w w1) as H1.
  { destruct Hw1 as [->|(_ & c & ->)]; [apply changed_within_refl|].
    apply changed_within_insert; [apply changed_within_refl | by eapply Ssib]. }
  destruct Hm as [| | | | | | |L c g v a dst o w' e2 e' HL ? ? ? ? ? ? ? Hdst Hfin]; try done.
  - by apply changed_within_insert.
  - pose proof (Ssib _ _ Hdst) as Sd.
    destruct Hfin as [output n bak ? ? ? Hbak ?|output bak ? ? ? ?|stderr part w2 ? ? -> ?|];
      try done.
    + apply changed_within_insert; [|done].
      apply changed_within_insert; [|by eapply Ssib].
      apply changed_within_delete; [|done]. by apply changed_within_insert.
    + by apply changed_within_insert.
    + apply changed_within_delete; [|done].
      destruct part; [by apply changed_within_insert | done].
Qed.

(** X16: the batch touches nothing but the ledger, the files it processes
    and their siblings: a path whose entry in the filesystem differs after
    the run is the ledger, or a file in scope with a video extension, or
    such a file's path with another suffix. *)
Theorem batch_changes_only_ledger_and_siblings env paths w q :
  (∀ l, listing env l ≡ₚ l) →
  post (main env paths w) !! q ≠ w !! q →
  q = processed_files_path env
  ∨ ∃ p, in_scope paths p ∧ supported_extension p = true
         ∧ (q = p ∨ ∃ s, Path.with_suffix p s = Ok q).
Proof.
  intros Hperm.
  set (S := λ q, q = processed_files_path env
                 ∨ ∃ p, in_scope paths p ∧ supported_extension p = true
                        ∧ (q = p ∨ ∃ s, Path.with_suffix p s = Ok q)).
  assert (wp (main env paths) w (λ _ w' _, changed_within S w w')) as H; [|by apply H].
  apply (main_always env paths (λ w' _, changed_within S w w')).
  - apply changed_within_refl.
  - done.
  - intros p x wd w0 e0 Hp Hx HI. eapply wp_mono; [apply file_step_sound|].
    intros o w' e Hstep. simpl. apply (changed_within_trans S w w0); [done|].
    eapply changed_within_mono; [|by eapply file_step_frame].
    intros y [->|(Hext & Hy)]; [by left|]. right. exists x. split_and!; [|done|done].
    destruct Hx as [->|Hx]; [by left|]. right. exists p. split; [done|].
    apply (elem_of_children env Hperm) in Hx. by destruct Hx.
Qed.

Lemma batch_changes_only_ledger_and_siblings_witness :
  post (main demo_env ["/v/b.avi"] demo_world) !! "/v/b.mp4" ≠ demo_world !! "/v/b.mp4"
  ∧ ("/v/b.mp4" = processed_files_path demo_env
     ∨ ∃ p, in_scope ["/v/b.avi"] p ∧ supported_extension p = true
            ∧ ("/v/b.mp4" = p ∨ ∃ s, Path.with_suffix p s = Ok "/v/b.mp4")).
Proof.
  assert (post (main demo_env ["/v/b.avi"] demo_world) !! "/v/b.mp4"
          ≠ demo_world !! "/v/b.mp4") as H by (by vm_compute).
  split; [exact H|].
  exact (batch_changes_only_ledger_and_siblings demo_env ["/v/b.avi"] demo_world "/v/b.mp4"
           ltac:(done) H).
Defined.

(** ** Input paths *)

Lemma bind_ret_l {A B} (a : A) (k : A → M B) w : bind (ret a) k w = k a w.
Proof. unfold bind, ret. by destruct (k a w). Qed.

Lemma bind_assoc {A B C} (m : M A) (k : A → M B) (h : B → M C) w :
  bind (bind m k) h w = bind m (λ a, bind (k a) h) w.
Proof.
  unfold bind. destruct (m w) as [[a|err] w1 e1]; [|done].
  destruct (k a w1) as [[b|err] w2 e2]; [|done].
  destruct (h b w2) as [o w3 e3]. by rewrite app_assoc.
Qed.

Lemma bind_ext {A B} (m : M A) (k k' : A → M B) w :
  (∀ a w1, k a w1 = k' a w1) → bind m k w = bind m k' w.
Proof.
  intros H. unfold bind. destruct (m w) as [[a|err] w1 e1]; [|done]. by rewrite H.
Qed.

Lemma for_each_app {A} (l1 l2 : list A) (body : A → M unit) w :
  for_each (l1 ++ l2) body w = (for_each l1 body ;; for_each l2 body) w.
Proof.
  revert w. induction l1 as [|x l1 IH]; intros w; simpl.
  - by rewrite bind_ret_l.
  - rewrite bind_assoc. apply bind_ext. intros _ w1. apply IH.
Qed.

(** X17: running the batch over two lists of paths, one after the other,
    is running it over the first list and then, if that returned, over the
    second list from the filesystem the first run left; if the first run
    raised, the second list is not looked at. *)
Theorem main_app env paths1 paths2 w :
  main env (paths1 ++ paths2) w = (main env paths1 ;; main env paths2) w.
Proof. unfold main. apply for_each_app. Qed.

(** X18: input paths that do not exist, or exist but are neither regular
    files nor directories, are reported one line each and skipped: the
    batch returns and the filesystem is as it was. *)
Theorem paths_neither_file_nor_directory_are_reported env paths w :
  Forall (λ p, w !! p = None ∨ w !! p = Some Special) paths →
  main env paths w = Res (Ok tt) w (map (skip_report w) paths).
Proof.
  unfold main. induction 1 as [|p paths Hp _ IH]; [done|].
  cbn [for_each map]. unfold bind at 1.
  assert ((present <- exists_ p ;;
           if negb present then print ("File not found (" +:+ p +:+ "). Skipping...")
           else d <- is_dir p ;;
                if d : bool then
                  children <- iterdir env p ;;
                  for_each children (λ video_file, process_file env video_file None)
                else
                  f <- is_file p ;;
                  if f : bool then process_file env p None
                  else print ("Invalid file (" +:+ p +:+ "). Skipping...")) w
          = Res (Ok tt) w [skip_report w p]) as ->.
  { unfold skip_report, bind, exists_, is_dir, is_file.
    destruct Hp as [E|E]; rewrite E.
    - by rewrite bool_decide_false by (by intros [? ?]).
    - rewrite bool_decide_true by eauto. cbn [negb].
      rewrite bool_decide_false by (by rewrite E). cbv beta. by rewrite E. }
  by rewrite IH.
Qed.

Lemma paths_neither_file_nor_directory_are_reported_witness :
  main demo_env ["/nope"; "/dev/null"] (<["/dev/null" := Special]> demo_world)
  = Res (Ok tt) (<["/dev/null" := Special]> demo_world)
      (map (skip_report (<["/dev/null" := Special]> demo_world)) ["/nope"; "/dev/null"]).
Proof.
  apply (paths_neither_file_nor_directory_are_reported demo_env ["/nope"; "/dev/null"]).
  constructor; [by left|]. constructor; [by right|]. constructor.
Defined.

(** ** More on single files *)

(** X19: when a file reaches the transcode (the subtitle pass has
    returned), the transcode succeeds but a directory sits at the backup
    name, [on_success] raises [IsADirectoryError] at the rename: the output
    stays at the destination, the original stays at its path, and the
    ledger is not appended to. *)
Theorem backup_blocked_by_directory env p w L c g v a dst output :
  supported_extension p = true →
  out (process_subtitle_file env p w) = Ok tt →
  w !! processed_files_path env = Some (File L) →
  in_ledger p L = false →
  w !! p = Some (File c) →
  first_track "General" (mediainfo env c) = Ok g →
  format g ≠ "" →
  first_track "Video" (mediainfo env c) = Ok v →
  first_track "Audio" (mediainfo env c) = Ok a →
  compliant g v a None (Path.suffix p) = false →
  Path.with_suffix p ("." +:+ destination_gformat g None (Path.suffix p)) = Ok dst →
  dst ≠ p →
  ffmpeg env (post (process_subtitle_file env p w))
    (Transcode p dst (output_vcodec_of (format v))
       (output_acodec_of (format a) (channel_s a)) "copy") = Done output →
  post (process_subtitle_file env p w) !! (p +:+ ".bak") = Some Dir →
  out (process_file env p None w) = Raise (IsADirectoryError (p +:+ ".bak"))
  ∧ post (process_file env p None w) !! dst = Some (File output)
  ∧ post (process_file env p None w) !! p = Some (File c)
  ∧ post (process_file env p None w) !! processed_files_path env = Some (File L).
Proof.
  intros Hext Hsub HL Hhit Hc Hg Hfmt Hv Ha Hcompl Hdst Hne Hrun Hbakdir.
  destruct (file_step_probed env p None w L c _ _ _ Hext Hsub HL Hhit Hc
              (process_file_step env p None w))
    as (w1 & e1 & Hw1 & Hc1 & HL1 & Hm & _).
  rewrite <- Hw1 in Hrun, Hbakdir.
  pose proof (supported_extension_suffix p Hext) as Hsuf.
  pose proof (backup_is_append p Hsuf) as Hbak.
  pose proof (destination_not_backup p g dst Hsuf Hdst) as Hdb.
  pose proof (destination_dotted _ _ _ _ Hdst) as Hdd.
  assert (processed_files_path env ≠ dst) as HLd by (by apply dotted_not_ledger).
  destruct Hm as [| | | ? ? ? ? ? ? Hmiss| | | |L' c' g' v' a' dst' o w' e2 e ? ? ? ? ? ? ? ? Hdst' Hfin];
    same_file; try congruence.
  - unfold missing_track in Hmiss. rewrite Hg, Hv, Ha in Hmiss. tauto.
  - rewrite Hdst in Hdst'. injection Hdst' as <-.
    destruct Hfin as [output' n bak ? Hrun' Hn Hbak' Hnd|output' bak ? Hrun' Hbak' Hdir| |];
      try congruence.
    + rewrite Hbak in Hbak'. injection Hbak' as <-.
      rewrite lookup_insert_ne in Hnd by done. done.
    + rewrite Hrun in Hrun'. injection Hrun' as <-.
      rewrite Hbak in Hbak'. injection Hbak' as <-.
      split_and!; [done|..].
      * by rewrite lookup_insert_eq.
      * by rewrite lookup_insert_ne.
      * by rewrite lookup_insert_ne.
Qed.

Lemma backup_blocked_by_directory_witness :
  let w := <["/v/b.avi.bak" := Dir]> demo_world in
  out (process_file demo_env "/v/b.avi" None w) = Raise (IsADirectoryError ("/v/b.avi" +:+ ".bak"))
  ∧ post (process_file demo_env "/v/b.avi" None w) !! "/v/b.mp4" = Some (File "mp4/avc/aac")
  ∧ post (process_file demo_env "/v/b.avi" None w) !! "/v/b.avi" = Some (File "avi/xvid/mp3")
  ∧ post (process_file demo_env "/v/b.avi" None w) !! processed_files_path demo_env
    = Some (File "").
Proof.
  intros w.
  apply (backup_blocked_by_directory demo_env "/v/b.avi" w "" "avi/xvid/mp3"
           (track "General" "AVI" 0) (track "Video" "MPEG-4 Visual" 0)
           (track "Audio" "MPEG Audio" 2) "/v/b.mp4" "mp4/avc/aac");
    try reflexivity; try done.
Defined.

(** X20: once a subtitle conversion has succeeded, a further subtitle pass
    on the same video does nothing: the [.vtt] it wrote is found and no
    converter is run again. *)
Theorem subtitle_pass_settles_after_success env p w vtt srt ssa cmd :
  Path.with_suffix p ".vtt" = Ok vtt →
  Path.with_suffix p ".srt" = Ok srt →
  Path.with_suffix p ".ssa" = Ok ssa →
  (cmd, true) ∈ subtitle_runs (evs (process_subtitle_file env p w)) →
  process_subtitle_file env p (post (process_subtitle_file env p w))
  = Res (Ok tt) (post (process_subtitle_file env p w)) [].
Proof.
  intros Hvtt Hsrt Hssa Hin.
  assert (is_Some (post (process_subtitle_file env p w) !! vtt)) as [n Hn].
  { revert Hin. rewrite (process_subtitle_file_eq env p w vtt srt ssa Hvtt Hsrt Hssa).
    destruct (w !! vtt) as [nv|]; [|destruct (w !! srt) as [n|];
                                    [|destruct (w !! ssa) as [n|]]];
      rewrite ?subtitle_conversion_eq; simpl; try by intros ?%elem_of_nil.
    - destruct (ffmpeg env w _) as [o|stderr partial]; simpl;
        intros [= ->]%list_elem_of_singleton. rewrite lookup_insert_eq. by eexists.
    - destruct (ffmpeg env w _) as [o|stderr partial]; simpl;
        intros [= ->]%list_elem_of_singleton. rewrite lookup_insert_eq. by eexists. }
  rewrite (process_subtitle_file_eq env p _ vtt srt ssa Hvtt Hsrt Hssa). by rewrite Hn.
Qed.

Lemma subtitle_pass_settles_after_success_witness :
  let w := <["/v/b.srt" := File "srt"]> demo_world in
  process_subtitle_file demo_env "/v/b.avi" (post (process_subtitle_file demo_env "/v/b.avi" w))
  = Res (Ok tt) (post (process_subtitle_file demo_env "/v/b.avi" w)) [].
Proof.
  intros w.
  apply (subtitle_pass_settles_after_success demo_env "/v/b.avi" w
           "/v/b.vtt" "/v/b.srt" "/v/b.ssa" (Subtitle "/v/b.srt" "utf-8" "/v/b.vtt"));
    try reflexivity.
  vm_compute. by left.
Defined.

Lemma ledger_hit_skips_before_probe_witness :
  let w := <[demo_ledger := File ("/v/b.avi" +:+ nl)]> demo_world in
  out (process_file demo_env "/v/b.avi" None w)
  = out (process_subtitle_file demo_env "/v/b.avi" w)
  ∧ probes (evs (process_file demo_env "/v/b.avi" None w)) = []
  ∧ transcodes (evs (process_file demo_env "/v/b.avi" None w)) = []
  ∧ post (process_file demo_env "/v/b.avi" None w)
    = post (process_subtitle_file demo_env "/v/b.avi" w).
Proof.
  intros w.
  apply (ledger_hit_skips_before_probe demo_env "/v/b.avi" None w ("/v/b.avi" +:+ nl));
    reflexivity.
Defined.


(** ** The last line of the ledger *)

Lemma universal_newlines_app_plain b l x :
  LF ∉ x → CR ∉ x →
  universal_newlines_from b (l ++ x) = universal_newlines_from b l ++ x.
Proof.
  intros HLF HCR. destruct (decide (x = [])) as [->|Hx]; [by rewrite !app_nil_r|].
  revert b. induction l as [|c l IH]; intros b.
  - cbn [app universal_newlines_from].
    rewrite <- (app_nil_r x) at 1. rewrite universal_newlines_plain by done.
    by rewrite app_nil_r.
  - cbn [app universal_newlines_from].
    repeat case_decide; try destruct b; cbn [app]; by rewrite ?IH.
Qed.

Lemma split_keepends_plain cur x :
  LF ∉ x → rev cur ++ x ≠ [] → split_keepends cur x = [text (rev cur ++ x)].
Proof.
  revert cur. induction x as [|c x IH]; intros cur Hx Hne; cbn [split_keepends].
  - rewrite app_nil_r in *. destruct cur; [done|]. done.
  - rewrite decide_False by (intros ->; apply Hx; by left).
    rewrite IH.
    + cbn [rev]. by rewrite <- app_assoc.
    + intros Hin. apply Hx. by right.
    + cbn [rev]. rewrite <- app_assoc. by destruct (rev cur).
Qed.

(** X23: a last line of the ledger that lacks its line terminator matches
    no path: the scan compares each line with the path followed by a line
    feed, so text after the last line feed changes no answer of the scan. *)
Theorem unterminated_last_line_is_not_a_hit L tail q :
  complete_lines L → nl_free tail →
  in_ledger q (L +:+ tail) = in_ledger q L.
Proof.
  intros HL [HLF HCR].
  destruct (decide (tail = "")) as [->|Hne]; [by rewrite append_empty|].
  assert (chars tail ≠ []) as Hne' by (intros E; apply Hne, chars_inj; by rewrite E).
  unfold in_ledger.
  assert (readlines (L +:+ tail) = readlines L ++ [tail]) as ->.
  { unfold readlines, complete_lines, universal_newlines in *. rewrite chars_app.
    rewrite universal_newlines_app_plain by done.
    assert (split_keepends [] (chars tail) = [tail]) as Hline.
    { rewrite split_keepends_plain by done. simpl. by rewrite text_chars. }
    destruct HL as [->|[a ->]].
    - simpl. exact Hline.
    - by rewrite split_keepends_app, Hline. }
  rewrite existsb_app. simpl.
  rewrite bool_decide_false; [by rewrite !orb_false_r|].
  intros E. apply HLF. rewrite <- E, chars_app. apply elem_of_app. right. by left.
Qed.

Lemma unterminated_last_line_is_not_a_hit_witness :
  in_ledger "/v/y.mp4" (("/v/x.mp4" +:+ nl) +:+ "/v/y.mp4")
  = in_ledger "/v/y.mp4" ("/v/x.mp4" +:+ nl).
Proof.
  apply (unterminated_last_line_is_not_a_hit ("/v/x.mp4" +:+ nl) "/v/y.mp4" "/v/y.mp4");
    [right; by exists (chars "/v/x.mp4") | compute_done].
Defined.

(** ** The errors of a file and the batch *)









(** ** An override that names the container of the file *)

(** Line 120 builds the destination as ['.' + output_gformat]: an override
    is a container name without the dot.  Such an override, naming the
    container a file already has, is never equal to [video_file.suffix],
    which carries the dot: the comparison of line 95 does not recognise it
    and the container is not left unchanged (unless the override is the
    word ["ok"] itself). *)
Lemma override_naming_own_container p ov gf :
  Path.with_suffix p ("." +:+ ov) = Ok p →
  ov ≠ Path.suffix p
  ∧ (ov ≠ "ok" → output_gformat_of gf (Some ov) (Path.suffix p) = ov).
Proof.
  intros Hp. pose proof (proj1 (with_suffix_same _ _ _ Hp) eq_refl) as Hs.
  assert (ov ≠ Path.suffix p) as Hne.
  { intros E. rewrite <- E in Hs. apply (f_equal (λ x, length (chars x))) in Hs.
    rewrite chars_app, length_app in Hs. simpl in Hs. lia. }
  split; [done|]. intros Hok. unfold output_gformat_of.
  rewrite (bool_decide_false (Some ov = _)) by congruence.
  assert (truthy ov = true) as Ht.
  { unfold truthy. rewrite bool_decide_false; [done|]. intros ->.
    destruct (suffix_shape p) as [E|(t & E & Ht & _)]; rewrite E in Hs; [done|].
    injection Hs as Hs. apply Ht. symmetry. exact Hs. }
  simpl. rewrite Ht. simpl. by rewrite andb_false_r.
Qed.

(** C6 does not hold of the script: [process_file] on an [.mp4] file that
    needs no transcode, called with the override [mp4].  The override
    matches the extension of the file, but line 95 compares it with the
    suffix [.mp4], dot included: the output container is ["mp4"], not
    ["ok"], the destination is the source itself, the transcode onto it
    fails and [on_failure] deletes the file.  Without the override the same
    file is only marked in the ledger. *)
Theorem override_mp4_on_mp4_file_is_not_unchanged :
  Path.suffix "/v/a.mp4" = ".mp4"
  ∧ output_gformat_of "MPEG-4" (Some "mp4") (Path.suffix "/v/a.mp4") = "mp4"
  ∧ output_gformat_of "MPEG-4" None (Path.suffix "/v/a.mp4") = "ok"
  ∧ transcodes (evs (process_file demo_env "/v/a.mp4" (Some "mp4") demo_world))
    = [(Transcode "/v/a.mp4" "/v/a.mp4" "copy" "copy" "copy", false)]
  ∧ post (process_file demo_env "/v/a.mp4" (Some "mp4") demo_world) !! "/v/a.mp4" = None
  ∧ transcodes (evs (process_file demo_env "/v/a.mp4" None demo_world)) = []
  ∧ post (process_file demo_env "/v/a.mp4" None demo_world) !! "/v/a.mp4"
    = Some (File "mp4/avc/aac").
Proof. split_and!; by vm_compute. Qed.
